(** * Signal generation engine: a shallow embedding and its properties

    The development follows the JavaScript sources of the backend:
    - [signalGenerator.js]: the indicator library (RSI, EMA, MACD), the three
      score calculators, the risk gates and [generateSignal];
    - [index.js] / [generateSignals.js]: the hold-period check
      ([needsRegeneration], [shouldGenerateSignal]) against the signal store
      and the generation loops;
    - [priceFetcher.js]: the order books, candles and prices handed to the
      calculators.

    Numbers.  A JavaScript number is modelled as an exact rational extended
    with the three IEEE special values [+Infinity], [-Infinity] and [NaN].
    Arithmetic on finite values is exact, with results kept in lowest
    terms.  Division by zero, comparisons with [NaN], and
    [Math.max]/[Math.min] on [NaN] behave as in JavaScript.  Rounding,
    overflow and the sign of zero are those of binary64 in the module
    [Binary64] only, which repeats the order-flow score, the EMA and the
    MACD over the kernel's floating-point numbers and serves to evaluate
    the code at given inputs.

    Time.  A [Date] is its [getTime()] value, an integer number of
    milliseconds; an ISO string written by [toISOString] and read back by
    [new Date(...)] denotes the same integer.

    The store.  The [signals] table is the list of its rows in insertion
    order.  A select may fail, in which case the checks see no row; and
    other passes may insert rows between the hold check of a turn and its
    insert. *)

From Stdlib Require Import QArith ZArith Qround Qminmax List String Ascii Bool.
From Stdlib Require Import Lia Lqa Morphisms Setoid Sorted.
From Stdlib Require Import DecimalString.
From Stdlib Require PrimFloat.
Import ListNotations.

Open Scope Q_scope.

(* ================================================================= *)
(** ** JavaScript numbers *)

Inductive num : Type :=
| Fin (q : Q)
| PInf
| NInf
| NaN.

Coercion Fin : Q >-> num.

Declare Scope js_scope.
Delimit Scope js_scope with js.
Bind Scope js_scope with num.

(** The infinity whose sign is that of a comparison against zero; the
    [Eq] case is the indeterminate form. *)
Definition inf_of_sign (c : comparison) : num :=
  match c with
  | Gt => PInf
  | Lt => NInf
  | Eq => NaN
  end.

Definition nadd (x y : num) : num :=
  match x, y with
  | Fin a, Fin b => Fin (Qred (a + b))
  | NaN, _ | _, NaN => NaN
  | PInf, NInf | NInf, PInf => NaN
  | PInf, _ | _, PInf => PInf
  | NInf, _ | _, NInf => NInf
  end.

Definition nneg (x : num) : num :=
  match x with
  | Fin a => Fin (Qred (- a))
  | PInf => NInf
  | NInf => PInf
  | NaN => NaN
  end.

Definition nsub (x y : num) : num :=
  match x, y with
  | Fin a, Fin b => Fin (Qred (a - b))
  | _, _ => nadd x (nneg y)
  end.

Definition nmul (x y : num) : num :=
  match x, y with
  | Fin a, Fin b => Fin (Qred (a * b))
  | NaN, _ | _, NaN => NaN
  | Fin a, PInf | PInf, Fin a => inf_of_sign (a ?= 0)
  | Fin a, NInf | NInf, Fin a => inf_of_sign (0 ?= a)
  | PInf, PInf | NInf, NInf => PInf
  | PInf, NInf | NInf, PInf => NInf
  end.

(** [x / 0] is an infinity of the sign of [x], and [0 / 0] is [NaN]. *)
Definition ndiv (x y : num) : num :=
  match x, y with
  | NaN, _ | _, NaN => NaN
  | Fin a, Fin b =>
      if Qeq_bool b 0 then inf_of_sign (a ?= 0) else Fin (Qred (a / b))
  | Fin _, PInf | Fin _, NInf => Fin 0
  | PInf, Fin b => inf_of_sign (if Qle_bool 0 b then Gt else Lt)
  | NInf, Fin b => inf_of_sign (if Qle_bool 0 b then Lt else Gt)
  | _, _ => NaN
  end.

(** Comparison; [None] when an operand is [NaN] (every relational
    operator is then false). *)
Definition ncompare (x y : num) : option comparison :=
  match x, y with
  | NaN, _ | _, NaN => None
  | Fin a, Fin b => Some (a ?= b)
  | PInf, PInf | NInf, NInf => Some Eq
  | NInf, _ | _, PInf => Some Lt
  | PInf, _ | _, NInf => Some Gt
  end.

Definition nlt (x y : num) : bool :=
  match ncompare x y with Some Lt => true | _ => false end.

Definition ngt (x y : num) : bool :=
  match ncompare x y with Some Gt => true | _ => false end.

Definition nle (x y : num) : bool :=
  match ncompare x y with Some Lt | Some Eq => true | _ => false end.

Definition nge (x y : num) : bool :=
  match ncompare x y with Some Gt | Some Eq => true | _ => false end.

(** [x === y] on numbers. *)
Definition nseq (x y : num) : bool :=
  match ncompare x y with Some Eq => true | _ => false end.

Infix "+" := nadd : js_scope.
Infix "-" := nsub : js_scope.
Infix "*" := nmul : js_scope.
Infix "/" := ndiv : js_scope.
Infix "<?" := nlt (at level 70, no associativity) : js_scope.
Infix ">?" := ngt (at level 70, no associativity) : js_scope.
Infix "<=?" := nle (at level 70, no associativity) : js_scope.
Infix ">=?" := nge (at level 70, no associativity) : js_scope.
Infix "===" := nseq (at level 70, no associativity) : js_scope.

(** [Math.max(x, y)] and [Math.min(x, y)]: [NaN] if either is [NaN]. *)
Definition Math_max (x y : num) : num :=
  match ncompare x y with
  | None => NaN
  | Some Lt => y
  | Some _ => x
  end.

Definition Math_min (x y : num) : num :=
  match ncompare x y with
  | None => NaN
  | Some Gt => y
  | Some _ => x
  end.

(** [Math.round(x)]: the integer nearest to [x], ties towards [+Infinity];
    [Math.floor(x)]. *)
Definition Math_round (x : num) : num :=
  match x with
  | Fin a => Fin (inject_Z (Qfloor (a + (1 # 2))))
  | _ => x
  end.

Definition Math_floor (x : num) : num :=
  match x with
  | Fin a => Fin (inject_Z (Qfloor a))
  | _ => x
  end.

(** A [length] or loop counter used as a number. *)
Definition of_nat (n : nat) : num := Fin (inject_Z (Z.of_nat n)).

(** Array read [a[i]] in a numeric expression: out of range gives
    [undefined], which arithmetic and comparisons treat as [NaN]. *)
Definition at_index (a : list num) (i : nat) : num := nth i a NaN.

(** [a.slice(-n)]: the last [n] elements, or all of [a] if it is shorter. *)
Definition slice_last {A : Type} (n : nat) (a : list A) : list A :=
  skipn (List.length a - n)%nat a.

(** Numeric equality of two JavaScript numbers, as values (the rationals
    are compared by [==], not by representation). *)
Definition num_eq (x y : num) : Prop :=
  match x, y with
  | Fin a, Fin b => a == b
  | PInf, PInf | NInf, NInf | NaN, NaN => True
  | _, _ => False
  end.

Infix "=n=" := num_eq (at level 70, no associativity).

Open Scope js_scope.

(* ================================================================= *)
(** ** signalGenerator.js *)

(** *** Data *)

Inductive timeframe : Type := TF_15m | TF_1h | TF_daily.

Inductive aggressiveness : Type := conservative | moderate | aggressive.

Inductive direction : Type := UP | DOWN | FLAT.

(** A candle as the calculators read it ([k.high], [k.low], [k.close],
    [k.volume]). *)
Record kline : Type := mkKline {
  high : num;
  low : num;
  close : num;
  volume : num
}.

Record order_book : Type := mkOrderBook {
  bidVolume : num;
  askVolume : num;
  imbalance : num
}.

(** Hold periods for each timeframe (in minutes). *)
Definition HOLD_PERIODS (tf : timeframe) : Z :=
  match tf with
  | TF_15m => 5
  | TF_1h => 15
  | TF_daily => 30
  end.

Record thresholds : Type := mkThresholds { up : num; down : num }.

Definition THRESHOLDS (a : aggressiveness) : thresholds :=
  match a with
  | conservative => {| up := 70; down := 30 |}
  | moderate => {| up := 62; down := 38 |}
  | aggressive => {| up := 60; down := 40 |}
  end.

(** *** Indicator library *)

(** One turn of the loop of [calculateRSI], on the pair (gains, losses). *)
Definition rsi_step (closes : list num) (acc : num * num) (i : nat)
  : num * num :=
  let '(gains, losses) := acc in
  let change := at_index closes i - at_index closes (i - 1) in
  if change >? 0 then (gains + change, losses) else (gains, losses - change).

Definition calculateRSI (closes : list num) (period : nat) : num :=
  if (List.length closes <? period + 1)%nat then 50 else
  let '(gains, losses) :=
    fold_left (rsi_step closes) (seq 1 period) (Fin 0, Fin 0) in
  let avgGain := gains / of_nat period in
  let avgLoss := losses / of_nat period in
  if avgLoss === 0 then 100 else
  let rs := avgGain / avgLoss in
  100 - (100 / (1 + rs)).

(** The default [period = 14]. *)
Definition RSI_PERIOD : nat := 14.

Definition calculateEMA (data : list num) (period : num) : num :=
  match data with
  | [] => 0
  | d0 :: rest =>
      let multiplier := 2 / (period + 1) in
      fold_left (fun ema d => (d - ema) * multiplier + ema) rest d0
  end.

Record macd_result : Type := mkMacd {
  macd : num;
  signal : num;
  histogram : num
}.

Definition calculateMACD (closes : list num) : macd_result :=
  let ema12 := calculateEMA closes 12 in
  let ema26 := calculateEMA closes 26 in
  let macd := ema12 - ema26 in
  let signal := calculateEMA (repeat macd 9) 9 in
  {| macd := macd; signal := signal; histogram := macd - signal |}.

(** *** Score calculators *)

(** The three contributions summed by [calculateMomentumScore]. *)
Definition rsi_contribution (rsi : num) : num :=
  if rsi >? 70 then 0 - (rsi - 70) * 1.5
  else if rsi <? 30 then 0 + (30 - rsi) * 1.5
  else 0 + (rsi - 50) * 0.5.

Definition macd_contribution (histogram : num) : num :=
  Math_max (-20) (Math_min 20 (histogram * 100)).

Definition trend_contribution (trendStrength : num) : num :=
  Math_max (-10) (Math_min 10 (trendStrength * 2)).

(** Recent price trend (last 5 candles). *)
Definition trendStrength (closes : list num) : num :=
  let recentCloses := slice_last 5 closes in
  (at_index recentCloses 4 - at_index recentCloses 0)
  / at_index recentCloses 0 * 100.

Definition calculateMomentumScore (klines : list kline) : num :=
  if (List.length klines <? 20)%nat then 0 else
  let closes := map close klines in
  let rsi := calculateRSI closes RSI_PERIOD in
  let histogram := histogram (calculateMACD closes) in
  let trendStrength := trendStrength closes in
  let score := rsi_contribution rsi in
  let score := score + macd_contribution histogram in
  let score := score + trend_contribution trendStrength in
  Math_max (-30) (Math_min 30 score).

Definition calculateOrderFlowScore (orderBook : order_book) : num :=
  let score := (imbalance orderBook - 0.5) * 60 in
  Math_max (-30) (Math_min 30 score).

Definition calculateSentimentScore (klines : list kline) : num :=
  if (List.length klines <? 10)%nat then 0 else
  let recentKlines := slice_last 10 klines in
  let avgVolume :=
    fold_left (fun sum k => sum + volume k) recentKlines (Fin 0) / 10 in
  let lastVolume := at_index (map volume recentKlines) 9 in
  let volumeRatio := lastVolume / avgVolume in
  let priceUp :=
    at_index (map close recentKlines) 9
    >? at_index (map close recentKlines) 0 in
  let score : num :=
    if priceUp && (volumeRatio >? 1.2) then 15
    else if negb priceUp && (volumeRatio >? 1.2) then -15
    else if priceUp then 8
    else -8 in
  Math_max (-20) (Math_min 20 score).

(** *** Risk gates *)

Record risk_gates : Type := mkRiskGates {
  rg_volatility_pass : bool;
  rg_liquidity_pass : bool;
  rg_conflict_pass : bool;
  rg_time_pass : bool;
  rg_correlation_pass : bool
}.

Definition checkRiskGates (klines : list kline) (orderBook : order_book)
  : risk_gates :=
  let closes := map close klines in
  let ranges := map (fun k => high k - low k) (slice_last 14 klines) in
  let atr := fold_left nadd ranges (Fin 0) / of_nat (List.length ranges) in
  let atrPercent := (atr / at_index closes (List.length closes - 1)) * 100 in
  let volatilityPass := atrPercent <? 5 in
  let totalVolume := bidVolume orderBook + askVolume orderBook in
  let liquidityPass := totalVolume >? 10 in
  let timePass := true in
  {| rg_volatility_pass := volatilityPass;
     rg_liquidity_pass := liquidityPass;
     rg_conflict_pass := true;
     rg_time_pass := timePass;
     rg_correlation_pass := true |}.

(** *** Confidence and direction *)

Definition rawScore (orderFlowScore momentumScore sentimentScore : num) : num :=
  orderFlowScore * 0.35 + momentumScore * 0.40 + sentimentScore * 0.25.

Definition allBullish (orderFlowScore momentumScore sentimentScore : num)
  : bool :=
  (orderFlowScore >? 10) && (momentumScore >? 10) && (sentimentScore >? 5).

Definition allBearish (orderFlowScore momentumScore sentimentScore : num)
  : bool :=
  (orderFlowScore <? -10) && (momentumScore <? -10) && (sentimentScore <? -5).

(** The amount the confluence boost adds to the confidence. *)
Definition confluence (orderFlowScore momentumScore sentimentScore : num)
  : option num :=
  let bull := allBullish orderFlowScore momentumScore sentimentScore in
  let bear := allBearish orderFlowScore momentumScore sentimentScore in
  if bull || bear then Some (if bull then Fin 8 else Fin (-8)) else None.

(** The value of [confidence] after [Math.max(0, Math.min(100, confidence))],
    before the thresholds are consulted. *)
Definition confidence_of (orderFlowScore momentumScore sentimentScore : num)
  : num :=
  let confidence :=
    50 + rawScore orderFlowScore momentumScore sentimentScore * 1.67 in
  let confidence :=
    match confluence orderFlowScore momentumScore sentimentScore with
    | Some boost => confidence + boost
    | None => confidence
    end in
  Math_max 0 (Math_min 100 confidence).

(** The threshold decision: [direction], [tradeable] and the value left in
    the variable [confidence] ([None] is [null]). *)
Record decision : Type := mkDecision {
  d_direction : direction;
  d_tradeable : bool;
  d_confidence : option num
}.

Definition decide (thresh : thresholds) (confidence : num) : decision :=
  if confidence >=? up thresh then
    {| d_direction := UP; d_tradeable := true; d_confidence := Some confidence |}
  else if confidence <=? down thresh then
    {| d_direction := DOWN; d_tradeable := true; d_confidence := Some confidence |}
  else
    {| d_direction := FLAT; d_tradeable := false; d_confidence := None |}.

(** *** Rationale *)

Definition string_of_Z (z : Z) : string := NilZero.string_of_int (Z.to_int z).

(** [x.toFixed(0)] for [|x| < 1e21], the range of the scores and of the
    RSI: the nearest integer, ties away from zero, with the sign of [x]. *)
Definition toFixed0 (x : num) : string :=
  match x with
  | NaN => "NaN"
  | PInf => "Infinity"
  | NInf => "-Infinity"
  | Fin q =>
      match (q ?= 0)%Q with
      | Lt => "-" ++ string_of_Z (Qfloor (- q + (1 # 2)))
      | _ => string_of_Z (Qfloor (q + (1 # 2)))
      end
  end%string.

Record rationale_scores : Type := mkScores {
  s_orderFlowScore : num;
  s_momentumScore : num;
  s_sentimentScore : num;
  s_rsi : num
}.

Definition rationales (tf : timeframe) (d : direction) (scores : rationale_scores)
  : list string :=
  let OF := toFixed0 (s_orderFlowScore scores) in
  let MO := toFixed0 (s_momentumScore scores) in
  let RSI := toFixed0 (s_rsi scores) in
  match tf, d with
  | TF_15m, UP =>
      [ "Short-term bid absorption (OF: " ++ OF ++ ") + RSI " ++ RSI;
        "15m bullish momentum building (MO: " ++ MO ++ ")";
        "Scalp setup confirmed - order flow "
          ++ (if s_orderFlowScore scores >? 0 then "bullish" else "turning") ]
  | TF_15m, DOWN =>
      [ "Short-term ask pressure (OF: " ++ OF ++ ") + RSI " ++ RSI;
        "15m bearish momentum (MO: " ++ MO ++ ")";
        "Scalp setup: sellers in control" ]
  | TF_15m, FLAT =>
      [ "15m signals inconclusive - waiting";
        "Choppy price action (RSI: " ++ RSI ++ ")";
        "Signal conflict on short timeframe" ]
  | TF_1h, UP =>
      [ "Hourly trend bullish + order flow " ++ OF;
        "Strong 1h momentum (MO: " ++ MO ++ ") + RSI " ++ RSI;
        "1h close expected above open" ]
  | TF_1h, DOWN =>
      [ "Hourly breakdown - OF: " ++ OF;
        "Weak 1h momentum (MO: " ++ MO ++ ") + RSI " ++ RSI;
        "1h close expected below open" ]
  | TF_1h, FLAT =>
      [ "Hourly signal inconclusive";
        "Mixed 1h indicators (RSI: " ++ RSI ++ ")";
        "High volatility risk - wait" ]
  | TF_daily, UP =>
      [ "Daily trend bullish + strong momentum";
        "EOD close expected above open (RSI: " ++ RSI ++ ")";
        "Accumulation pattern + positive flow" ]
  | TF_daily, DOWN =>
      [ "Daily trend bearish + weak momentum";
        "EOD close expected below open (RSI: " ++ RSI ++ ")";
        "Distribution pattern detected" ]
  | TF_daily, FLAT =>
      [ "Daily direction unclear - too early";
        "Waiting for more data before EOD call";
        "Mixed daily signals - no edge" ]
  end%string.

(** [random] is the value returned by [Math.random()]; an index that is
    not an element of [options] reads [undefined] ([None]). *)
Definition generateRationale (d : direction) (tf : timeframe)
    (scores : rationale_scores) (random : num) : option string :=
  let options := rationales tf d scores in
  match Math_floor (random * of_nat (List.length options)) with
  | Fin i =>
      if Qle_bool 0 i then nth_error options (Z.to_nat (Qfloor i)) else None
  | _ => None
  end.

(** *** generateSignal *)

Definition lower_ascii (c : ascii) : ascii :=
  let n := nat_of_ascii c in
  if ((65 <=? n) && (n <=? 90))%nat then ascii_of_nat (n + 32) else c.

(** [s.toLowerCase()] on ASCII text. *)
Fixpoint toLowerCase (s : string) : string :=
  match s with
  | EmptyString => EmptyString
  | String c r => String (lower_ascii c) (toLowerCase r)
  end.

Record signal_record : Type := mkSignal {
  market_id : string;
  symbol : string;
  sig_timeframe : timeframe;
  sig_direction : direction;
  confidence : option num;
  tradeable : bool;
  order_flow_score : num;
  momentum_score : num;
  sentiment_score : num;
  volatility_pass : bool;
  liquidity_pass : bool;
  conflict_pass : bool;
  time_pass : bool;
  correlation_pass : bool;
  rationale : option string;
  generated_at : Z;
  hold_until : Z;
  expires_at : option Z
}.

(** [Math.round(x * 10) / 10]. *)
Definition round1 (x : num) : num := Math_round (x * 10) / 10.

(** [generateSignal] after its three fetches have resolved to [klines] and
    [orderBook] (the fetched spot price is not read); [now] is the
    [new Date()] taken for the hold period, in milliseconds. *)
Definition generateSignal (sym : string) (tf : timeframe) (aggr : aggressiveness)
    (klines : list kline) (orderBook : order_book) (now : Z) (random : num)
  : signal_record :=
  let orderFlowScore := calculateOrderFlowScore orderBook in
  let momentumScore := calculateMomentumScore klines in
  let sentimentScore := calculateSentimentScore klines in
  let confidence := confidence_of orderFlowScore momentumScore sentimentScore in
  let thresh := THRESHOLDS aggr in
  let dec := decide thresh confidence in
  let direction := d_direction dec in
  let tradeable := d_tradeable dec in
  let confidence := d_confidence dec in
  let riskGates := checkRiskGates klines orderBook in
  let rationale :=
    generateRationale direction tf
      {| s_orderFlowScore := orderFlowScore;
         s_momentumScore := momentumScore;
         s_sentimentScore := sentimentScore;
         s_rsi := calculateRSI (map close klines) RSI_PERIOD |} random in
  let holdMinutes := HOLD_PERIODS tf in
  let holdUntil := (now + holdMinutes * 60 * 1000)%Z in
  {| market_id := (toLowerCase sym ++ "-usd")%string;
     symbol := (sym ++ "/USD")%string;
     sig_timeframe := tf;
     sig_direction := direction;
     confidence :=
       if tradeable then option_map Math_round confidence else None;
     tradeable := tradeable;
     order_flow_score := round1 orderFlowScore;
     momentum_score := round1 momentumScore;
     sentiment_score := round1 sentimentScore;
     volatility_pass := rg_volatility_pass riskGates;
     liquidity_pass := rg_liquidity_pass riskGates;
     conflict_pass := tradeable;
     time_pass := rg_time_pass riskGates;
     correlation_pass := rg_correlation_pass riskGates;
     rationale := rationale;
     generated_at := now;
     hold_until := holdUntil;
     expires_at := None |}.

(* ================================================================= *)
(** ** index.js and generateSignals.js: the hold-period check *)

(** The [signals] table, its rows in insertion order. *)
Definition signals_table : Type := list signal_record.

Definition timeframe_eqb (a b : timeframe) : bool :=
  match a, b with
  | TF_15m, TF_15m | TF_1h, TF_1h | TF_daily, TF_daily => true
  | _, _ => false
  end.

(** The query builder calls made on [supabase.from('signals')]. *)
Definition eq_market_id (marketId : string) (rows : signals_table)
  : signals_table :=
  filter (fun r => String.eqb (market_id r) marketId) rows.

Definition eq_timeframe (tf : timeframe) (rows : signals_table)
  : signals_table :=
  filter (fun r => timeframe_eqb (sig_timeframe r) tf) rows.

(** [.order('generated_at', { ascending: false })], as a stable
    insertion sort: rows generated at the same instant keep table order. *)
Fixpoint insert_desc (r : signal_record) (sorted : signals_table)
  : signals_table :=
  match sorted with
  | [] => [r]
  | r' :: rest =>
      if (generated_at r' <=? generated_at r)%Z
      then r :: sorted
      else r' :: insert_desc r rest
  end.

Definition order_generated_at_desc (rows : signals_table) : signals_table :=
  fold_right insert_desc [] rows.

Definition limit (n : nat) (rows : signals_table) : signals_table :=
  firstn n rows.

(** [.single()]: [data] is the row when exactly one row is left, else
    [null]. *)
Definition single (rows : signals_table) : option signal_record :=
  match rows with
  | [r] => Some r
  | _ => None
  end.

(** The row read by both checks; only its [hold_until] is selected. *)
Definition latest_signal (db : signals_table) (marketId : string)
    (tf : timeframe) : option signal_record :=
  single (limit 1 (order_generated_at_desc
                     (eq_timeframe tf (eq_market_id marketId db)))).

(** The [data] of the response.  A request that fails resolves with an
    [error] and [data = null] (as does [.single()] when no row is left);
    neither check reads [error], so all they see of a failed select is the
    [null]. *)
Definition select_data (db : signals_table) (marketId : string)
    (tf : timeframe) (select_ok : bool) : option signal_record :=
  if select_ok then latest_signal db marketId tf else None.

(** index.js; [select_ok] tells whether the select came back without an
    error, [now] is [new Date()]. *)
Definition needsRegeneration (db : signals_table) (marketId : string)
    (tf : timeframe) (select_ok : bool) (now : Z) : bool :=
  match select_data db marketId tf select_ok with
  | None => true
  | Some data => (now >? hold_until data)%Z
  end.

(** generateSignals.js. *)
Definition shouldGenerateSignal (db : signals_table) (marketId : string)
    (tf : timeframe) (select_ok : bool) (now : Z) : bool :=
  match select_data db marketId tf select_ok with
  | None => true
  | Some existing =>
      let holdUntil := hold_until existing in
      (now >? holdUntil)%Z
  end.

(** *** The generation loops *)

Definition MARKETS : list string := ["BTC"; "ETH"; "SOL"]%string.

Definition TIMEFRAMES : list timeframe := [TF_15m; TF_1h; TF_daily].

(** What one pass over one symbol meets outside the program: the clock read
    by the hold check and whether its select came back without an error,
    the outcome of the three fetches of [generateSignal] ([None] when one of
    them fails and [generateSignal] throws), the clock read by
    [generateSignal], the draw of [Math.random()], and whether the insert
    came back without an error. *)
Record attempt : Type := mkAttempt {
  checked_at : Z;
  select_ok : bool;
  fetched : option (list kline * order_book);
  generated_now : Z;
  random_draw : num;
  insert_ok : bool
}.

(** [supabase.from('signals').insert(signal)], when it succeeds. *)
Definition insert (signal : signal_record) (db : signals_table)
  : signals_table :=
  db ++ [signal].

(** index.js: the body of the loop of [generateSignals], for one symbol.
    The body awaits the hold check, then the fetches of [generateSignal],
    then the insert, and the cron callbacks start a pass without awaiting
    the one before: the table the insert lands on is the table [db] read by
    the check followed by the rows [landed] that other passes have inserted
    in between. *)
Definition generateSignals_body_among (tf : timeframe)
    (db landed : signals_table) (sym : string) (a : attempt)
  : signals_table :=
  let marketId := (toLowerCase sym ++ "-usd")%string in
  if negb (needsRegeneration db marketId tf (select_ok a) (checked_at a))
  then db ++ landed
  else
    match fetched a with
    | None => db ++ landed
    | Some (klines, orderBook) =>
        let signal :=
          generateSignal sym tf aggressive klines orderBook
            (generated_now a) (random_draw a) in
        if insert_ok a then insert signal (db ++ landed) else db ++ landed
    end.

(** The body in a pass that runs alone, as a function of the table. *)
Definition generateSignals_body (tf : timeframe) (db : signals_table)
    (sym : string) (a : attempt) : signals_table :=
  let marketId := (toLowerCase sym ++ "-usd")%string in
  if negb (needsRegeneration db marketId tf (select_ok a) (checked_at a))
  then db
  else
    match fetched a with
    | None => db
    | Some (klines, orderBook) =>
        let signal :=
          generateSignal sym tf aggressive klines orderBook
            (generated_now a) (random_draw a) in
        if insert_ok a then insert signal db else db
    end.

Definition generateSignals (tf : timeframe) (env : string -> attempt)
    (db : signals_table) : signals_table :=
  fold_left (fun db sym => generateSignals_body tf db sym (env sym))
    MARKETS db.

(** generateSignals.js: the table after the call and the value returned
    ([None] is [null]). *)
Definition generateAndPushSignal (db : signals_table) (sym : string)
    (tf : timeframe) (a : attempt) : signals_table * option signal_record :=
  let marketId := (toLowerCase sym ++ "-usd")%string in
  let shouldGenerate :=
    shouldGenerateSignal db marketId tf (select_ok a) (checked_at a) in
  if negb shouldGenerate then (db, None)
  else
    match fetched a with
    | None => (db, None)
    | Some (klines, orderBook) =>
        let signal :=
          generateSignal sym tf aggressive klines orderBook
            (generated_now a) (random_draw a) in
        if insert_ok a then (insert signal db, Some signal) else (db, None)
    end.

Definition generateSignalsForTimeframe (tf : timeframe)
    (env : timeframe -> string -> attempt) (db : signals_table)
  : signals_table * list signal_record :=
  fold_left
    (fun (st : signals_table * list signal_record) sym =>
       let '(db, results) := st in
       let '(db', result) := generateAndPushSignal db sym tf (env tf sym) in
       match result with
       | Some r => (db', results ++ [r])
       | None => (db', results)
       end)
    MARKETS (db, []).

Definition generateAllSignals (env : timeframe -> string -> attempt)
    (db : signals_table) : signals_table :=
  fold_left (fun db tf => fst (generateSignalsForTimeframe tf env db))
    TIMEFRAMES db.

(* ================================================================= *)
(** ** priceFetcher.js *)

(** [x || 0] on a number that may be missing: [undefined], [NaN] and 0
    give 0. *)
Definition or_zero (x : option num) : num :=
  match x with
  | None | Some NaN => Fin 0
  | Some (Fin q) => if Qeq_bool q 0 then Fin 0 else Fin q
  | Some y => y
  end.

(** [a.slice(-limit)] for a variable [limit]: [slice(-0)] is [slice(0)],
    the whole array. *)
Definition slice_neg {A : Type} (limit : nat) (a : list A) : list A :=
  match limit with
  | O => a
  | S _ => slice_last limit a
  end.

(** The Binance fetcher. *)
Module Binance.

(** [fetchOrderBook] on the quantities [parseFloat(qty)] of the bid and
    ask levels of the depth response. *)
Definition fetchOrderBook (bids asks : list num) : order_book :=
  let bidVolume := fold_left (fun sum qty => sum + qty) bids (Fin 0) in
  let askVolume := fold_left (fun sum qty => sum + qty) asks (Fin 0) in
  let imbalance := bidVolume / (bidVolume + askVolume) in
  {| bidVolume := bidVolume; askVolume := askVolume; imbalance := imbalance |}.

End Binance.

(** The fetcher over several exchanges. *)
Module MultiExchange.

Record price_data : Type := mkPrice {
  price : num;
  open : num;
  high : num;
  low : num;
  volume : num;
  change : num
}.

(** The entry [data[id]] of the CoinGecko response. *)
Record coin : Type := mkCoin {
  usd : num;
  usd_24h_vol : option num;
  usd_24h_change : option num
}.

(** [fetchFromCoinGecko] once the response is parsed; [None] is both the
    missing entry and the [null] returned for it. *)
Definition fetchFromCoinGecko (entry : option coin) : option price_data :=
  match entry with
  | None => None
  | Some c =>
      Some {| price := usd c;
              open := usd c / (1 + or_zero (usd_24h_change c) / 100);
              high := usd c * 1.01;
              low := usd c * 0.99;
              volume := or_zero (usd_24h_vol c);
              change := or_zero (usd_24h_change c) |}
  end.

(** [fetchPrice] on the outcomes of the fetchers, in the order they are
    tried; [None] is the thrown error. *)
Fixpoint fetchPrice (outcomes : list (option price_data))
  : option price_data :=
  match outcomes with
  | [] => None
  | Some data :: _ => Some data
  | None :: rest => fetchPrice rest
  end.

(** [fetchKlines] on the outcomes of the two OHLC fetchers ([None] is
    [null]); [None] is the thrown error. *)
Definition fetchKlines (kraken cryptoCompare : option (list kline))
    (limit : nat) : option (list kline) :=
  let data :=
    match kraken with
    | Some d => if (List.length d <? 10)%nat then cryptoCompare else kraken
    | None => cryptoCompare
    end in
  match data with
  | Some d =>
      if (10 <=? List.length d)%nat then Some (slice_neg limit d) else None
  | None => None
  end.

(** [fetchOrderBook], from the price record returned by [fetchPrice]. *)
Definition fetchOrderBook (priceData : price_data) : order_book :=
  let change := or_zero (Some (change priceData)) in
  let imbalance := Math_max 0.3 (Math_min 0.7 (0.5 + change / 20)) in
  {| bidVolume := 100 * imbalance;
     askVolume := 100 * (1 - imbalance);
     imbalance := imbalance |}.

End MultiExchange.

(* ================================================================= *)
(** ** signalGenerator.js in binary64

    The order-flow score and the EMA and MACD of signalGenerator.js once
    more, operation for operation, over the kernel's binary64 numbers: the
    values a JavaScript engine computes, with their rounding, overflow and
    signed zeros.  They are used to evaluate the code at given inputs. *)

Module Binary64.

Import PrimFloat.
Local Open Scope float_scope.

(** [Math.max(x, y)] and [Math.min(x, y)]: [NaN] if either is [NaN], and
    [+0] counts as larger than [-0]. *)
Definition Math_max (x y : float) : float :=
  if is_nan x || is_nan y then nan
  else if x <? y then y
  else if y <? x then x
  else if get_sign x then y else x.

Definition Math_min (x y : float) : float :=
  if is_nan x || is_nan y then nan
  else if x <? y then x
  else if y <? x then y
  else if get_sign x then x else y.

(** [calculateOrderFlowScore], on the [imbalance] of the order book (the
    only field it uses). *)
#[warnings="-inexact-float"]
Definition calculateOrderFlowScore (imbalance : float) : float :=
  let score := (imbalance - 0.5) * 60 in
  Math_max (-30) (Math_min 30 score).

Definition calculateEMA (data : list float) (period : float) : float :=
  match data with
  | [] => 0
  | d0 :: rest =>
      let multiplier := 2 / (period + 1) in
      fold_left (fun ema d => (d - ema) * multiplier + ema) rest d0
  end.

Record macd_result : Type := mkMacd {
  macd : float;
  signal : float;
  histogram : float
}.

Definition calculateMACD (closes : list float) : macd_result :=
  let ema12 := calculateEMA closes 12 in
  let ema26 := calculateEMA closes 26 in
  let macd := ema12 - ema26 in
  let signal := calculateEMA (repeat macd 9) 9 in
  {| macd := macd; signal := signal; histogram := macd - signal |}.

End Binary64.

(* ================================================================= *)
(** ** The arithmetic of the specification

    The specification states its formulas over real numbers; these
    definitions follow its words, over the rationals. *)

Definition spec_clamp (x lo hi : Q) : Q :=
  if Qlt_le_dec x lo then lo else if Qlt_le_dec hi x then hi else x.

Definition spec_confluence (orderFlow momentum sentiment : Q) : Q :=
  if Qlt_le_dec 10 orderFlow then
    if Qlt_le_dec 10 momentum then
      if Qlt_le_dec 5 sentiment then 8 else 0
    else 0
  else if Qlt_le_dec orderFlow (-10) then
    if Qlt_le_dec momentum (-10) then
      if Qlt_le_dec sentiment (-5) then -8 else 0
    else 0
  else 0.

Definition spec_confidence (orderFlow momentum sentiment : Q) : Q :=
  spec_clamp
    (50 + 1.67 * (0.35 * orderFlow + 0.40 * momentum + 0.25 * sentiment)
     + spec_confluence orderFlow momentum sentiment)
    0 100.

Definition spec_order_flow (imbalance : Q) : Q :=
  spec_clamp ((imbalance - 0.5) * 60) (-30) 30.

(** [clamp(x, lo, hi)] on JavaScript numbers, with their own comparisons:
    a [NaN] is left as it is. *)
Definition spec_clamp_num (x lo hi : num) : num :=
  if x <? lo then lo else if x >? hi then hi else x.

(* ================================================================= *)
(** ** Invariants of the signals table *)

(** Two rows of the same market and timeframe. *)
Definition same_key (r1 r2 : signal_record) : Prop :=
  market_id r1 = market_id r2 /\ sig_timeframe r1 = sig_timeframe r2.

(** Every row holds from its generation on, and of two rows of one key the
    one inserted later was generated after the hold of the earlier one had
    ended. *)
Definition well_held (db : signals_table) : Prop :=
  Forall (fun r => (generated_at r <= hold_until r)%Z) db /\
  ForallOrdPairs
    (fun r1 r2 => same_key r1 r2 -> (hold_until r1 < generated_at r2)%Z) db.

(* ================================================================= *)
(** ** Properties of JavaScript numbers *)

Section NumFacts.

Lemma num_eq_refl (x : num) : x =n= x.
Proof. destruct x; simpl; auto with qarith. Qed.

Lemma num_eq_sym (x y : num) : x =n= y -> y =n= x.
Proof. destruct x, y; simpl; auto with qarith. Qed.

Lemma num_eq_trans (x y z : num) : x =n= y -> y =n= z -> x =n= z.
Proof.
  destruct x, y, z; simpl; try tauto.
  intros H1 H2. now rewrite H1.
Qed.

Lemma eq_num_eq (x y : num) : x = y -> x =n= y.
Proof. intros ->. apply num_eq_refl. Qed.

Lemma num_eq_fin_inv (x : num) (q : Q) :
  x =n= Fin q -> exists p, x = Fin p /\ p == q.
Proof. destruct x; simpl; try tauto. intros H. now exists q0. Qed.

End NumFacts.

#[global] Instance num_eq_Equivalence : Equivalence num_eq.
Proof.
  split.
  - exact num_eq_refl.
  - exact num_eq_sym.
  - exact num_eq_trans.
Qed.

#[global] Instance Fin_Proper : Proper (Qeq ==> num_eq) Fin.
Proof. intros a b H. exact H. Qed.

#[global] Instance inf_of_sign_Proper : Proper (eq ==> num_eq) inf_of_sign.
Proof. intros c c' <-. apply num_eq_refl. Qed.

(** Case analysis on the shape of the operands of a congruence goal. *)
Ltac num_congr Hx Hy :=
  match type of Hx with
  | ?x =n= ?x' =>
      match type of Hy with
      | ?y =n= ?y' =>
          destruct x, x'; cbn [num_eq] in Hx; try contradiction;
          destruct y, y'; cbn [num_eq] in Hy; try contradiction;
          cbn [num_eq nadd nsub nmul ndiv nneg ncompare];
          try exact I; try reflexivity
      end
  end.

#[global] Instance ncompare_Proper : Proper (num_eq ==> num_eq ==> eq) ncompare.
Proof.
  intros x x' Hx y y' Hy. num_congr Hx Hy.
  now rewrite Hx, Hy.
Qed.

#[global] Instance nadd_Proper : Proper (num_eq ==> num_eq ==> num_eq) nadd.
Proof.
  intros x x' Hx y y' Hy. num_congr Hx Hy.
  now rewrite !Qred_correct, Hx, Hy.
Qed.

#[global] Instance nsub_Proper : Proper (num_eq ==> num_eq ==> num_eq) nsub.
Proof.
  intros x x' Hx y y' Hy. num_congr Hx Hy.
  now rewrite !Qred_correct, Hx, Hy.
Qed.

#[global] Instance nmul_Proper : Proper (num_eq ==> num_eq ==> num_eq) nmul.
Proof.
  intros x x' Hx y y' Hy. num_congr Hx Hy;
    try (rewrite Hx; reflexivity); try (rewrite Hy; reflexivity).
  now rewrite !Qred_correct, Hx, Hy.
Qed.

#[global] Instance ndiv_Proper : Proper (num_eq ==> num_eq ==> num_eq) ndiv.
Proof.
  intros x x' Hx y y' Hy. num_congr Hx Hy;
    try (rewrite Hy; reflexivity).
  rewrite Hy. destruct (Qeq_bool q2 0).
  - rewrite Hx. reflexivity.
  - cbn [num_eq]. now rewrite !Qred_correct, Hx, Hy.
Qed.

#[global] Instance Math_max_Proper :
  Proper (num_eq ==> num_eq ==> num_eq) Math_max.
Proof.
  intros x x' Hx y y' Hy. unfold Math_max.
  rewrite (ncompare_Proper _ _ Hx _ _ Hy).
  destruct (ncompare x' y') as [[]|]; auto; exact I.
Qed.

#[global] Instance Math_min_Proper :
  Proper (num_eq ==> num_eq ==> num_eq) Math_min.
Proof.
  intros x x' Hx y y' Hy. unfold Math_min.
  rewrite (ncompare_Proper _ _ Hx _ _ Hy).
  destruct (ncompare x' y') as [[]|]; auto; exact I.
Qed.

#[global] Instance ngt_Proper : Proper (num_eq ==> num_eq ==> eq) ngt.
Proof. intros x x' Hx y y' Hy. unfold ngt. now rewrite Hx, Hy. Qed.

#[global] Instance nlt_Proper : Proper (num_eq ==> num_eq ==> eq) nlt.
Proof. intros x x' Hx y y' Hy. unfold nlt. now rewrite Hx, Hy. Qed.

#[global] Instance nge_Proper : Proper (num_eq ==> num_eq ==> eq) nge.
Proof. intros x x' Hx y y' Hy. unfold nge. now rewrite Hx, Hy. Qed.

#[global] Instance nle_Proper : Proper (num_eq ==> num_eq ==> eq) nle.
Proof. intros x x' Hx y y' Hy. unfold nle. now rewrite Hx, Hy. Qed.

(** The relational operators on finite numbers are those of [Q]. *)
Section FiniteComparisons.

Variables a b : Q.

Lemma ngt_fin : (Fin a >? Fin b) = true <-> b < a.
Proof.
  unfold ngt; cbn [ncompare].
  destruct (Qcompare_spec a b) as [H|H|H]; split; intros H';
    try discriminate; try reflexivity; try assumption;
    exfalso; revert H H'; clear; intros; lra.
Qed.

Lemma nlt_fin : (Fin a <? Fin b) = true <-> a < b.
Proof.
  unfold nlt; cbn [ncompare].
  destruct (Qcompare_spec a b) as [H|H|H]; split; intros H';
    try discriminate; try reflexivity; try assumption;
    exfalso; revert H H'; clear; intros; lra.
Qed.

Lemma nge_fin : (Fin a >=? Fin b) = true <-> b <= a.
Proof.
  unfold nge; cbn [ncompare].
  destruct (Qcompare_spec a b) as [H|H|H]; split; intros H';
    try discriminate; try reflexivity;
    try (revert H; clear; intros; lra);
    exfalso; revert H H'; clear; intros; lra.
Qed.

Lemma nle_fin : (Fin a <=? Fin b) = true <-> a <= b.
Proof.
  unfold nle; cbn [ncompare].
  destruct (Qcompare_spec a b) as [H|H|H]; split; intros H';
    try discriminate; try reflexivity;
    try (revert H; clear; intros; lra);
    exfalso; revert H H'; clear; intros; lra.
Qed.

Lemma nseq_fin : (Fin a === Fin b) = true <-> a == b.
Proof.
  unfold nseq; cbn [ncompare].
  destruct (Qcompare_spec a b) as [H|H|H]; split; intros H';
    try discriminate; try reflexivity; try assumption;
    exfalso; revert H H'; clear; intros; lra.
Qed.

Lemma ngt_fin_false : (Fin a >? Fin b) = false <-> a <= b.
Proof.
  rewrite <- Bool.not_true_iff_false, ngt_fin. split; intros H; lra.
Qed.

Lemma nlt_fin_false : (Fin a <? Fin b) = false <-> b <= a.
Proof.
  rewrite <- Bool.not_true_iff_false, nlt_fin. split; intros H; lra.
Qed.

Lemma nge_fin_false : (Fin a >=? Fin b) = false <-> a < b.
Proof.
  rewrite <- Bool.not_true_iff_false, nge_fin. split; intros H; lra.
Qed.

Lemma nle_fin_false : (Fin a <=? Fin b) = false <-> b < a.
Proof.
  rewrite <- Bool.not_true_iff_false, nle_fin. split; intros H; lra.
Qed.

(** [Math.max] and [Math.min] of two finite numbers. *)
Lemma Math_max_fin : Math_max (Fin a) (Fin b) =n= Fin (Qmax a b).
Proof.
  unfold Math_max; cbn [ncompare].
  destruct (Qcompare_spec a b) as [H|H|H]; cbn [num_eq].
  - rewrite Q.max_l; [reflexivity | lra].
  - rewrite Q.max_r; [reflexivity | lra].
  - rewrite Q.max_l; [reflexivity | lra].
Qed.

Lemma Math_min_fin : Math_min (Fin a) (Fin b) =n= Fin (Qmin a b).
Proof.
  unfold Math_min; cbn [ncompare].
  destruct (Qcompare_spec a b) as [H|H|H]; cbn [num_eq].
  - rewrite Q.min_l; [reflexivity | lra].
  - rewrite Q.min_l; [reflexivity | lra].
  - rewrite Q.min_r; [reflexivity | lra].
Qed.

End FiniteComparisons.

(** [Math.max(lo, Math.min(hi, x))] clamps a finite [x] to [[lo, hi]]. *)
Lemma clamp_fin (lo hi x : Q) :
  lo <= hi ->
  Math_max (Fin lo) (Math_min (Fin hi) (Fin x)) =n= Fin (spec_clamp x lo hi).
Proof.
  intros Hlh. rewrite Math_min_fin, Math_max_fin. cbn [num_eq].
  unfold spec_clamp.
  destruct (Qlt_le_dec x lo); [|destruct (Qlt_le_dec hi x)].
  - rewrite Q.min_r by lra. rewrite Q.max_l by lra. reflexivity.
  - rewrite Q.min_l by lra. rewrite Q.max_r by lra. reflexivity.
  - rewrite Q.min_r by lra. rewrite Q.max_r by lra. reflexivity.
Qed.

Lemma spec_clamp_bounds (x lo hi : Q) :
  lo <= hi -> lo <= spec_clamp x lo hi <= hi.
Proof.
  intros H. unfold spec_clamp.
  destruct (Qlt_le_dec x lo); [|destruct (Qlt_le_dec hi x)]; lra.
Qed.

Lemma spec_clamp_mono (x y lo hi : Q) :
  lo <= hi -> x <= y -> spec_clamp x lo hi <= spec_clamp y lo hi.
Proof.
  intros H Hxy. unfold spec_clamp.
  destruct (Qlt_le_dec x lo), (Qlt_le_dec y lo);
    try destruct (Qlt_le_dec hi x); try destruct (Qlt_le_dec hi y); lra.
Qed.

(** A clamp never yields an infinity: it is [NaN] (when its argument is)
    or a finite number within the bounds. *)
Lemma clamp_shape (lo hi : Q) (x : num) :
  lo <= hi ->
  Math_max (Fin lo) (Math_min (Fin hi) x) = NaN \/
  exists q, Math_max (Fin lo) (Math_min (Fin hi) x) = Fin q /\ lo <= q <= hi.
Proof.
  intros Hlh. destruct x as [q| | |].
  - right. unfold Math_min; cbn [ncompare].
    destruct (Qcompare_spec hi q) as [H|H|H];
      unfold Math_max; cbn [ncompare].
    + destruct (Qcompare_spec lo hi) as [H'|H'|H'];
        eexists; (split; [reflexivity|lra]).
    + destruct (Qcompare_spec lo hi) as [H'|H'|H'];
        eexists; (split; [reflexivity|lra]).
    + destruct (Qcompare_spec lo q) as [H'|H'|H'];
        eexists; (split; [reflexivity|lra]).
  - right. unfold Math_min; cbn [ncompare].
    unfold Math_max; cbn [ncompare].
    destruct (Qcompare_spec lo hi) as [H'|H'|H'];
      eexists; (split; [reflexivity|lra]).
  - right. exists lo. split; [reflexivity|lra].
  - left. reflexivity.
Qed.

Lemma Math_round_range (q : Q) :
  0 <= q <= 100 -> (0 <= Qfloor (q + (1 # 2)) <= 100)%Z.
Proof.
  intros [H0 H1]. split.
  - change 0%Z with (Qfloor 0). apply Qfloor_resp_le. lra.
  - change 100%Z with (Qfloor (100 + (1 # 2))). apply Qfloor_resp_le. lra.
Qed.

(* ================================================================= *)
(** ** The signal record *)

Section SignalInvariant.

Variables (sym : string) (tf : timeframe) (aggr : aggressiveness).
Variables (klines : list kline) (orderBook : order_book).
Variables (now : Z) (random : num).

Let s := generateSignal sym tf aggr klines orderBook now random.

Let clamped :=
  confidence_of (calculateOrderFlowScore orderBook)
    (calculateMomentumScore klines) (calculateSentimentScore klines).

Lemma confidence_of_shape (a b c : num) :
  confidence_of a b c = NaN \/
  exists q, confidence_of a b c = Fin q /\ 0 <= q <= 100.
Proof. unfold confidence_of. apply clamp_shape. lra. Qed.

(** C1. In the record returned by [generateSignal], [tradeable] is true
    exactly when [direction] is not FLAT, [confidence] is null exactly when
    [direction] is FLAT, and a non-null [confidence] is an integer: the
    clamped confidence rounded by [Math.round], between 0 and 100. *)
Theorem generateSignal_tradeable_confidence :
  (tradeable s = true <-> sig_direction s <> FLAT) /\
  (confidence s = None <-> sig_direction s = FLAT) /\
  (forall c, confidence s = Some c ->
     c = Math_round clamped /\
     exists z : Z, c = Fin (inject_Z z) /\ (0 <= z <= 100)%Z).
Proof.
  subst s clamped. unfold generateSignal.
  cbn [tradeable sig_direction confidence].
  pose proof (confidence_of_shape (calculateOrderFlowScore orderBook)
                (calculateMomentumScore klines)
                (calculateSentimentScore klines)) as Hshape.
  revert Hshape.
  generalize (confidence_of (calculateOrderFlowScore orderBook)
                (calculateMomentumScore klines)
                (calculateSentimentScore klines)).
  intros c0 [Hnan|(q & Hq & Hr)]; subst c0.
  - unfold decide.
    destruct aggr; cbn; (repeat split; try congruence; try discriminate).
  - unfold decide.
    destruct (Fin q >=? up (THRESHOLDS aggr)); [|
      destruct (Fin q <=? down (THRESHOLDS aggr))];
      cbn [d_direction d_tradeable d_confidence option_map Math_round];
      (split; [split; congruence|]);
      (split; [split; congruence|]);
      intros c Hc; try discriminate;
      injection Hc as <-; (split; [reflexivity|]);
      eexists; (split; [reflexivity|]); apply Math_round_range; exact Hr.
Qed.

End SignalInvariant.

(** C1, at a tradeable signal: no candles, a one-sided order book. *)
Lemma generateSignal_tradeable_confidence_witness :
  confidence
    (generateSignal "BTC" TF_15m aggressive [] (mkOrderBook 12 0 1) 0 0)
  = Some (Fin 68) /\
  exists z : Z, Fin 68 = Fin (inject_Z z) /\ (0 <= z <= 100)%Z.
Proof.
  split; [reflexivity|].
  apply (generateSignal_tradeable_confidence
           "BTC" TF_15m aggressive [] (mkOrderBook 12 0 1) 0%Z (Fin 0)).
  reflexivity.
Defined.

(* ================================================================= *)
(** ** Short histories *)

Section ShortHistory.

(** C8. With too few points every calculator returns its neutral value and
    none fails: [calculateRSI] gives 50 below [period + 1] closes (15 for
    the default period), [calculateMomentumScore] gives 0 below 20 candles,
    [calculateSentimentScore] gives 0 below 10 candles. *)
Theorem short_history_defaults :
  (forall closes period,
      (List.length closes < period + 1)%nat ->
      calculateRSI closes period = Fin 50) /\
  (forall closes,
      (List.length closes < 15)%nat ->
      calculateRSI closes RSI_PERIOD = Fin 50) /\
  (forall klines,
      (List.length klines < 20)%nat ->
      calculateMomentumScore klines = Fin 0) /\
  (forall klines,
      (List.length klines < 10)%nat ->
      calculateSentimentScore klines = Fin 0).
Proof.
  split; [|split; [|split]].
  - intros closes period H. unfold calculateRSI.
    apply Nat.ltb_lt in H. now rewrite H.
  - intros closes H. unfold calculateRSI, RSI_PERIOD.
    change (14 + 1)%nat with 15%nat.
    apply Nat.ltb_lt in H. now rewrite H.
  - intros klines H. unfold calculateMomentumScore.
    apply Nat.ltb_lt in H. now rewrite H.
  - intros klines H. unfold calculateSentimentScore.
    apply Nat.ltb_lt in H. now rewrite H.
Qed.

End ShortHistory.

Lemma short_history_defaults_witness :
  calculateRSI [Fin 100; Fin 101; Fin 99] 3 = Fin 50 /\
  calculateRSI (repeat (Fin 100) 14) RSI_PERIOD = Fin 50 /\
  calculateMomentumScore (repeat (mkKline 2 1 2 5) 19) = Fin 0 /\
  calculateSentimentScore (repeat (mkKline 2 1 2 5) 9) = Fin 0.
Proof.
  destruct short_history_defaults as (H1 & H2 & H3 & H4).
  split; [|split; [|split]].
  - apply H1. simpl. lia.
  - apply H2. simpl. lia.
  - apply H3. simpl. lia.
  - apply H4. simpl. lia.
Defined.

(* ================================================================= *)
(** ** Direction thresholds *)

Section Thresholds.

(** The decision at a finite confidence, one tier at a time. *)
Lemma decide_fin (th : thresholds) (q u d : Q) :
  up th = Fin u -> down th = Fin d -> d < u ->
  (d_direction (decide th q) = UP <-> u <= q) /\
  (d_direction (decide th q) = DOWN <-> q <= d) /\
  (d_direction (decide th q) = FLAT <-> d < q < u).
Proof.
  intros Hu Hd Hdu. unfold decide. rewrite Hu, Hd.
  destruct (Fin q >=? Fin u) eqn:E1.
  - apply nge_fin in E1. cbn [d_direction].
    (split; [|split]); split; intros H; try discriminate; try reflexivity;
      try lra.
  - apply nge_fin_false in E1.
    destruct (Fin q <=? Fin d) eqn:E2.
    + apply nle_fin in E2. cbn [d_direction].
      (split; [|split]); split; intros H; try discriminate; try reflexivity;
      try lra.
    + apply nle_fin_false in E2. cbn [d_direction].
      (split; [|split]); split; intros H; try discriminate; try reflexivity;
      try lra.
Qed.

Lemma decide_flat_iff (th : thresholds) (c : num) :
  (d_tradeable (decide th c) = false <-> d_direction (decide th c) = FLAT) /\
  (d_confidence (decide th c) = None <-> d_direction (decide th c) = FLAT).
Proof.
  unfold decide.
  destruct (c >=? up th); [|destruct (c <=? down th)];
    cbn [d_direction d_tradeable d_confidence];
    split; split; intros H; try discriminate; reflexivity.
Qed.

(** C2. The direction of a signal is the threshold decision at its clamped
    confidence.  At a confidence [c] that decision is UP iff [c >= 70],
    DOWN iff [c <= 30] under the conservative tier; 62 and 38 under the
    moderate tier; 60 and 40 under the aggressive tier; it is FLAT in
    between (and at [NaN], the one value a clamped confidence can take
    besides the numbers from 0 to 100), and FLAT goes with
    [tradeable = false] and a null confidence.  At [c = 50] the aggressive
    tier gives FLAT with a null confidence. *)
Theorem direction_by_tier :
  (forall orderFlowScore momentumScore sentimentScore,
      confidence_of orderFlowScore momentumScore sentimentScore = NaN \/
      exists c : Q,
        confidence_of orderFlowScore momentumScore sentimentScore = Fin c /\
        0 <= c <= 100) /\
  (forall sym tf aggr klines orderBook now random,
      sig_direction (generateSignal sym tf aggr klines orderBook now random)
      = d_direction
          (decide (THRESHOLDS aggr)
             (confidence_of (calculateOrderFlowScore orderBook)
                (calculateMomentumScore klines)
                (calculateSentimentScore klines)))) /\
  (forall c : Q,
      (d_direction (decide (THRESHOLDS conservative) c) = UP <-> 70 <= c) /\
      (d_direction (decide (THRESHOLDS conservative) c) = DOWN <-> c <= 30) /\
      (d_direction (decide (THRESHOLDS conservative) c) = FLAT <-> 30 < c < 70)) /\
  (forall c : Q,
      (d_direction (decide (THRESHOLDS moderate) c) = UP <-> 62 <= c) /\
      (d_direction (decide (THRESHOLDS moderate) c) = DOWN <-> c <= 38) /\
      (d_direction (decide (THRESHOLDS moderate) c) = FLAT <-> 38 < c < 62)) /\
  (forall c : Q,
      (d_direction (decide (THRESHOLDS aggressive) c) = UP <-> 60 <= c) /\
      (d_direction (decide (THRESHOLDS aggressive) c) = DOWN <-> c <= 40) /\
      (d_direction (decide (THRESHOLDS aggressive) c) = FLAT <-> 40 < c < 60)) /\
  (forall aggr, d_direction (decide (THRESHOLDS aggr) NaN) = FLAT) /\
  (forall aggr (c : num),
      (d_tradeable (decide (THRESHOLDS aggr) c) = false
       <-> d_direction (decide (THRESHOLDS aggr) c) = FLAT) /\
      (d_confidence (decide (THRESHOLDS aggr) c) = None
       <-> d_direction (decide (THRESHOLDS aggr) c) = FLAT)) /\
  decide (THRESHOLDS aggressive) 50
  = {| d_direction := FLAT; d_tradeable := false; d_confidence := None |}.
Proof.
  split; [exact confidence_of_shape|].
  split; [reflexivity|].
  split; [intros c; apply (decide_fin _ c 70 30); [reflexivity..|lra]|].
  split; [intros c; apply (decide_fin _ c 62 38); [reflexivity..|lra]|].
  split; [intros c; apply (decide_fin _ c 60 40); [reflexivity..|lra]|].
  split; [intros []; reflexivity|].
  split; [intros aggr c; apply decide_flat_iff|].
  reflexivity.
Qed.

End Thresholds.

(* ================================================================= *)
(** ** Confidence *)

Section Confidence.

Variables orderFlow momentum sentiment : Q.

(** The confluence boost of the code is the adjustment of the
    specification. *)
Lemma confluence_spec :
  match confluence orderFlow momentum sentiment with
  | Some boost => boost = Fin (spec_confluence orderFlow momentum sentiment)
  | None => spec_confluence orderFlow momentum sentiment = 0%Q
  end.
Proof.
  unfold confluence, allBullish, allBearish, spec_confluence.
  destruct (Fin orderFlow >? 10) eqn:B1;
    [apply ngt_fin in B1|apply ngt_fin_false in B1];
  destruct (Fin momentum >? 10) eqn:B2;
    [apply ngt_fin in B2|apply ngt_fin_false in B2| |];
  destruct (Fin sentiment >? 5) eqn:B3;
    [apply ngt_fin in B3|apply ngt_fin_false in B3| | | | | |];
  destruct (Fin orderFlow <? -10) eqn:S1;
    try (apply nlt_fin in S1); try (apply nlt_fin_false in S1);
  destruct (Fin momentum <? -10) eqn:S2;
    try (apply nlt_fin in S2); try (apply nlt_fin_false in S2);
  destruct (Fin sentiment <? -5) eqn:S3;
    try (apply nlt_fin in S3); try (apply nlt_fin_false in S3);
  cbn [andb orb];
  repeat match goal with
         | |- context [Qlt_le_dec ?a ?b] => destruct (Qlt_le_dec a b)
         end;
  try reflexivity; exfalso; lra.
Qed.

End Confidence.

(** Case analysis on every comparison of two finite numbers in the goal,
    leaving the corresponding facts over [Q]. *)
Ltac num_cmp :=
  repeat match goal with
    | |- context [Fin ?a >? Fin ?b] =>
        let E := fresh "E" in
        destruct (Fin a >? Fin b) eqn:E;
        [apply ngt_fin in E | apply ngt_fin_false in E]
    | |- context [Fin ?a <? Fin ?b] =>
        let E := fresh "E" in
        destruct (Fin a <? Fin b) eqn:E;
        [apply nlt_fin in E | apply nlt_fin_false in E]
    | |- context [Fin ?a >=? Fin ?b] =>
        let E := fresh "E" in
        destruct (Fin a >=? Fin b) eqn:E;
        [apply nge_fin in E | apply nge_fin_false in E]
    | |- context [Fin ?a <=? Fin ?b] =>
        let E := fresh "E" in
        destruct (Fin a <=? Fin b) eqn:E;
        [apply nle_fin in E | apply nle_fin_false in E]
    end.

#[global] Instance spec_clamp_Proper :
  Proper (Qeq ==> Qeq ==> Qeq ==> Qeq) spec_clamp.
Proof.
  intros x x' Hx lo lo' Hlo hi hi' Hhi. unfold spec_clamp.
  destruct (Qlt_le_dec x lo), (Qlt_le_dec x' lo');
    try destruct (Qlt_le_dec hi x); try destruct (Qlt_le_dec hi' x'); lra.
Qed.

Section ConfidenceFormula.

Variables orderFlow momentum sentiment : Q.

Lemma rawScore_fin :
  rawScore orderFlow momentum sentiment
  =n= Fin (0.35 * orderFlow + 0.40 * momentum + 0.25 * sentiment).
Proof.
  unfold rawScore. cbn [nadd nmul num_eq].
  rewrite !Qred_correct. ring.
Qed.

(** C3. For component scores [orderFlow], [momentum], [sentiment] the
    confidence that [generateSignal] compares with the thresholds is
    [clamp(50 + 1.67 * (0.35*orderFlow + 0.40*momentum + 0.25*sentiment) + b,
    0, 100)], [b] being the confluence adjustment (8, -8 or 0).  When the
    weighted sum is 30 the remapped value is [50 + 30 * 1.67 = 100.1] and
    the confidence is 100. *)
Theorem confidence_of_formula :
  confidence_of orderFlow momentum sentiment
  =n= Fin (spec_confidence orderFlow momentum sentiment) /\
  (spec_confluence orderFlow momentum sentiment == 8 \/
   spec_confluence orderFlow momentum sentiment == -8 \/
   spec_confluence orderFlow momentum sentiment == 0) /\
  (rawScore orderFlow momentum sentiment =n= Fin 30 ->
   50 + rawScore orderFlow momentum sentiment * 1.67 =n= Fin 100.1 /\
   confidence_of orderFlow momentum sentiment =n= Fin 100).
Proof.
  assert (Hmain : confidence_of orderFlow momentum sentiment
                  =n= Fin (spec_confidence orderFlow momentum sentiment)).
  { unfold confidence_of, spec_confidence.
    pose proof (confluence_spec orderFlow momentum sentiment) as Hc.
    destruct (confluence orderFlow momentum sentiment) as [boost|].
    - subst boost. unfold rawScore. cbn [nadd nmul].
      rewrite clamp_fin by lra. cbn [num_eq].
      apply spec_clamp_Proper; try reflexivity.
      rewrite !Qred_correct. ring.
    - rewrite Hc. unfold rawScore. cbn [nadd nmul].
      rewrite clamp_fin by lra. cbn [num_eq].
      apply spec_clamp_Proper; try reflexivity.
      rewrite !Qred_correct. ring. }
  assert (Hb : spec_confluence orderFlow momentum sentiment == 8 \/
               spec_confluence orderFlow momentum sentiment == -8 \/
               spec_confluence orderFlow momentum sentiment == 0).
  { unfold spec_confluence.
    repeat match goal with
           | |- context [Qlt_le_dec ?a ?b] => destruct (Qlt_le_dec a b)
           end; auto with qarith. }
  split; [exact Hmain|]. split; [exact Hb|].
  intros Hraw. split.
  - rewrite Hraw. cbn [nadd nmul num_eq]. rewrite !Qred_correct. ring.
  - rewrite Hmain. cbn [num_eq].
    rewrite rawScore_fin in Hraw. cbn [num_eq] in Hraw.
    unfold spec_confidence, spec_confluence.
    repeat match goal with
           | |- context [Qlt_le_dec ?a ?b] => destruct (Qlt_le_dec a b)
           end;
      unfold spec_clamp;
      repeat match goal with
             | |- context [Qlt_le_dec ?a ?b] => destruct (Qlt_le_dec a b)
             end; lra.
Qed.

(** C4. The confluence boost is +8 exactly when [orderFlow > 10],
    [momentum > 10] and [sentiment > 5], all strict; it is -8 exactly when
    [orderFlow < -10], [momentum < -10] and [sentiment < -5]; otherwise
    nothing is added.  A momentum of exactly 10 gives no +8, and any
    momentum above 10 does when the other two conditions hold (10.01, for
    one).  The boost is added to the remapped confidence before the clamp:
    the confidence is [clamp(50 + rawScore * 1.67 + 8, 0, 100)] under the
    first condition, [clamp(50 + rawScore * 1.67 - 8, 0, 100)] under the
    second and [clamp(50 + rawScore * 1.67, 0, 100)] otherwise, and the
    boost can decide the direction: the scores 11, 11, 6 give UP at the
    conservative thresholds and would give FLAT without it, and -11, -11,
    -6 give DOWN and would give FLAT. *)
Theorem confluence_boost_iff :
  (confluence orderFlow momentum sentiment = Some (Fin 8)
   <-> 10 < orderFlow /\ 10 < momentum /\ 5 < sentiment) /\
  (confluence orderFlow momentum sentiment = Some (Fin (-8))
   <-> orderFlow < -10 /\ momentum < -10 /\ sentiment < -5) /\
  (confluence orderFlow momentum sentiment = None
   <-> ~ (10 < orderFlow /\ 10 < momentum /\ 5 < sentiment) /\
       ~ (orderFlow < -10 /\ momentum < -10 /\ sentiment < -5)) /\
  confluence orderFlow 10 sentiment <> Some (Fin 8) /\
  (10 < orderFlow -> 5 < sentiment ->
   forall m : Q, 10 < m -> confluence orderFlow m sentiment = Some (Fin 8)) /\
  confluence 11 10 6 = None /\
  confluence 11 10.01 6 = Some (Fin 8) /\
  (10 < orderFlow /\ 10 < momentum /\ 5 < sentiment ->
   confidence_of orderFlow momentum sentiment
   = Math_max 0
       (Math_min 100
          (50 + rawScore orderFlow momentum sentiment * 1.67 + 8))) /\
  (orderFlow < -10 /\ momentum < -10 /\ sentiment < -5 ->
   confidence_of orderFlow momentum sentiment
   = Math_max 0
       (Math_min 100
          (50 + rawScore orderFlow momentum sentiment * 1.67 + -8))) /\
  (~ (10 < orderFlow /\ 10 < momentum /\ 5 < sentiment) ->
   ~ (orderFlow < -10 /\ momentum < -10 /\ sentiment < -5) ->
   confidence_of orderFlow momentum sentiment
   = Math_max 0
       (Math_min 100 (50 + rawScore orderFlow momentum sentiment * 1.67))) /\
  (d_direction (decide (THRESHOLDS conservative) (confidence_of 11 11 6)) = UP /\
   d_direction
     (decide (THRESHOLDS conservative)
        (Math_max 0 (Math_min 100 (50 + rawScore 11 11 6 * 1.67)))) = FLAT) /\
  (d_direction
     (decide (THRESHOLDS conservative) (confidence_of (-11) (-11) (-6)))
   = DOWN /\
   d_direction
     (decide (THRESHOLDS conservative)
        (Math_max 0 (Math_min 100 (50 + rawScore (-11) (-11) (-6) * 1.67))))
   = FLAT).
Proof.
  assert (Hup : confluence orderFlow momentum sentiment = Some (Fin 8)
                <-> 10 < orderFlow /\ 10 < momentum /\ 5 < sentiment).
  { unfold confluence, allBullish, allBearish.
    num_cmp; cbn [andb orb]; split; intros H;
      try discriminate; try reflexivity; try (exfalso; lra); try (split; lra). }
  assert (Hdown : confluence orderFlow momentum sentiment = Some (Fin (-8))
                  <-> orderFlow < -10 /\ momentum < -10 /\ sentiment < -5).
  { unfold confluence, allBullish, allBearish.
    num_cmp; cbn [andb orb]; split; intros H;
      try discriminate; try reflexivity; try (exfalso; lra); try (split; lra). }
  assert (Hnone : confluence orderFlow momentum sentiment = None
                  <-> ~ (10 < orderFlow /\ 10 < momentum /\ 5 < sentiment) /\
                      ~ (orderFlow < -10 /\ momentum < -10 /\ sentiment < -5)).
  { unfold confluence, allBullish, allBearish.
    num_cmp; cbn [andb orb]; split; intros H;
      try discriminate; try reflexivity; try (exfalso; lra); try (split; lra). }
  split; [exact Hup|]. split; [exact Hdown|]. split; [exact Hnone|].
  split; [|split; [|split; [|split; [|split; [|split; [|split; [|split]]]]]]].
  - unfold confluence, allBullish, allBearish.
    num_cmp; cbn [andb orb]; intros H;
      try discriminate; try (exfalso; lra).
  - intros Ho Hs m Hm. unfold confluence, allBullish, allBearish.
    num_cmp; cbn [andb orb]; try reflexivity; exfalso; lra.
  - reflexivity.
  - reflexivity.
  - intros H. apply Hup in H. unfold confidence_of. now rewrite H.
  - intros H. apply Hdown in H. unfold confidence_of. now rewrite H.
  - intros H1 H2. unfold confidence_of.
    now rewrite (proj2 Hnone (conj H1 H2)).
  - split; vm_compute; reflexivity.
  - split; vm_compute; reflexivity.
Qed.

End ConfidenceFormula.

(** C3, at three scores whose weighted sum is 30. *)
Lemma confidence_of_formula_witness :
  rawScore 30 30 30 =n= Fin 30 /\
  50 + rawScore 30 30 30 * 1.67 =n= Fin 100.1 /\
  confidence_of 30 30 30 =n= Fin 100.
Proof.
  assert (H : rawScore 30 30 30 =n= Fin 30) by (vm_compute; reflexivity).
  split; [exact H|].
  exact (proj2 (proj2 (confidence_of_formula 30 30 30)) H).
Defined.

(** C4, at scores above the three cut-offs: the boost is 8 and it is added
    before the clamp. *)
Lemma confluence_boost_iff_witness :
  (10 < 12 /\ 10 < 21 # 2 /\ 5 < 6) /\
  confluence 12 (21 # 2) 6 = Some (Fin 8) /\
  confidence_of 12 (21 # 2) 6
  = Math_max 0 (Math_min 100 (50 + rawScore 12 (21 # 2) 6 * 1.67 + 8)).
Proof.
  assert (H1 : 10 < 12) by reflexivity.
  assert (H2 : 5 < 6) by reflexivity.
  assert (H3 : 10 < 21 # 2) by reflexivity.
  split; [split; [|split]; assumption|].
  destruct (confluence_boost_iff 12 (21 # 2) 6)
    as (_ & _ & _ & _ & H & _ & _ & Hadd & _).
  split.
  - exact (H H1 H2 (21 # 2) H3).
  - exact (Hadd (conj H1 (conj H3 H2))).
Defined.

(* ================================================================= *)
(** ** Order-flow score *)

Section OrderFlow.

Lemma order_flow_fin (ob : order_book) (i : Q) :
  imbalance ob = Fin i ->
  calculateOrderFlowScore ob =n= Fin (spec_order_flow i).
Proof.
  intros Hi. unfold calculateOrderFlowScore, spec_order_flow.
  rewrite Hi. cbn [nsub nmul]. rewrite clamp_fin by lra. cbn [num_eq].
  apply spec_clamp_Proper; try reflexivity.
  rewrite !Qred_correct. reflexivity.
Qed.

Lemma order_flow_pinf (ob : order_book) :
  imbalance ob = PInf -> calculateOrderFlowScore ob = Fin 30.
Proof. intros Hi. unfold calculateOrderFlowScore. now rewrite Hi. Qed.

Lemma order_flow_ninf (ob : order_book) :
  imbalance ob = NInf -> calculateOrderFlowScore ob = Fin (-30).
Proof. intros Hi. unfold calculateOrderFlowScore. now rewrite Hi. Qed.

Lemma order_flow_range (ob : order_book) :
  imbalance ob <> NaN ->
  (Fin (-30) <=? calculateOrderFlowScore ob) = true /\
  (calculateOrderFlowScore ob <=? Fin 30) = true.
Proof.
  intros Hn. destruct (imbalance ob) as [i| | |] eqn:Hi.
  - rewrite (order_flow_fin ob i Hi).
    rewrite !nle_fin. apply spec_clamp_bounds. lra.
  - rewrite (order_flow_pinf ob Hi). split; reflexivity.
  - rewrite (order_flow_ninf ob Hi). split; reflexivity.
  - congruence.
Qed.

Lemma order_flow_nan (ob : order_book) :
  imbalance ob = NaN -> calculateOrderFlowScore ob = NaN.
Proof. intros Hi. unfold calculateOrderFlowScore. now rewrite Hi. Qed.

(** The two nested calls of [Math.max] and [Math.min] are the clamp. *)
Lemma order_flow_clamp_num (ob : order_book) :
  calculateOrderFlowScore ob
  =n= spec_clamp_num ((imbalance ob - 0.5) * 60) (-30) 30.
Proof.
  unfold calculateOrderFlowScore, spec_clamp_num.
  destruct (imbalance ob) as [i| | |]; try (vm_compute; reflexivity).
  cbn [nsub nmul].
  generalize (Qred (Qred (i - 0.5) * 60)). intros q.
  rewrite clamp_fin by lra. unfold spec_clamp.
  num_cmp; cbn [num_eq];
    repeat match goal with
           | |- context [Qlt_le_dec ?a ?b] => destruct (Qlt_le_dec a b)
           end; lra.
Qed.

Lemma order_flow_mono (ob1 ob2 : order_book) :
  (imbalance ob1 <=? imbalance ob2) = true ->
  (calculateOrderFlowScore ob1 <=? calculateOrderFlowScore ob2) = true.
Proof.
  intros Hle.
  destruct (imbalance ob1) as [i| | |] eqn:H1;
    destruct (imbalance ob2) as [j| | |] eqn:H2;
    try discriminate Hle.
  - apply nle_fin in Hle.
    rewrite (order_flow_fin ob1 i H1), (order_flow_fin ob2 j H2).
    apply nle_fin. apply spec_clamp_mono; lra.
  - rewrite (order_flow_pinf ob2 H2).
    apply order_flow_range. congruence.
  - rewrite (order_flow_pinf ob1 H1), (order_flow_pinf ob2 H2). reflexivity.
  - rewrite (order_flow_ninf ob1 H1).
    apply order_flow_range. congruence.
  - rewrite (order_flow_ninf ob1 H1), (order_flow_pinf ob2 H2). reflexivity.
  - rewrite (order_flow_ninf ob1 H1), (order_flow_ninf ob2 H2). reflexivity.
Qed.

End OrderFlow.

Section OrderFlowClaim.

Import PrimFloat.

(** C7, as stated, fails on the code at two inputs.  The order book that
    the Binance fetcher builds from an empty depth response has a [NaN]
    imbalance, and its score is [NaN], not a number of [[-30, 30]].  At
    [imbalance = 0.8] the binary64 operations of the code return
    18.000000000000004 (the difference [0.8 - 0.5] is rounded to
    0.30000000000000004), not 18. *)
#[warnings="-inexact-float"]
Lemma order_flow_score_clamp_counterexample :
  (imbalance (Binance.fetchOrderBook [] []) = NaN /\
   calculateOrderFlowScore (Binance.fetchOrderBook [] []) = NaN /\
   (Fin (-30) <=? calculateOrderFlowScore (Binance.fetchOrderBook [] []))
   = false /\
   (calculateOrderFlowScore (Binance.fetchOrderBook [] []) <=? Fin 30)
   = false) /\
  Binary64.calculateOrderFlowScore 0.8%float <> 18%float.
Proof.
  split.
  - split; [|split; [|split]]; reflexivity.
  - intros H.
    apply (f_equal (fun y => PrimFloat.eqb y 18%float)) in H.
    vm_compute in H. discriminate H.
Qed.

(** C7, amended.  For every order book the order-flow score is
    [clamp((imbalance - 0.5) * 60, -30, 30)], the clamp leaving a [NaN] as
    it is; the score does not decrease when [imbalance] grows; it lies
    between -30 and 30 whenever [imbalance] is not [NaN], and is [NaN]
    when it is.  At [imbalance = 0.8] the formula is worth 18 over the
    reals, and the code, in binary64, returns 18.000000000000004, the
    next number above 18. *)
#[warnings="-inexact-float"]
Theorem order_flow_score_clamp :
  (forall ob,
      calculateOrderFlowScore ob
      =n= spec_clamp_num ((imbalance ob - 0.5) * 60) (-30) 30) /\
  (forall ob1 ob2,
      (imbalance ob1 <=? imbalance ob2) = true ->
      (calculateOrderFlowScore ob1 <=? calculateOrderFlowScore ob2) = true) /\
  (forall ob,
      imbalance ob <> NaN ->
      (Fin (-30) <=? calculateOrderFlowScore ob) = true /\
      (calculateOrderFlowScore ob <=? Fin 30) = true) /\
  (forall ob,
      imbalance ob = NaN -> calculateOrderFlowScore ob = NaN) /\
  (spec_order_flow 0.8 == 18)%Q /\
  Binary64.calculateOrderFlowScore 0.8%float = 0x1.2000000000001p+4%float /\
  PrimFloat.next_up 18%float = 0x1.2000000000001p+4%float.
Proof.
  split; [exact order_flow_clamp_num|].
  split; [exact order_flow_mono|].
  split; [exact order_flow_range|].
  split; [exact order_flow_nan|].
  split; [|split]; reflexivity.
Qed.

End OrderFlowClaim.

(** C7, at two order books with imbalances 0.8 and 0.9 and at one with no
    imbalance. *)
Lemma order_flow_score_clamp_witness :
  (calculateOrderFlowScore (mkOrderBook 8 2 0.8)
   <=? calculateOrderFlowScore (mkOrderBook 9 1 0.9)) = true /\
  (calculateOrderFlowScore (mkOrderBook 9 1 0.9) <=? Fin 30) = true /\
  calculateOrderFlowScore (mkOrderBook 0 0 NaN) = NaN.
Proof.
  destruct order_flow_score_clamp as (_ & Hmono & Hrange & Hnan & _).
  split; [|split].
  - apply Hmono. reflexivity.
  - apply Hrange. discriminate.
  - apply Hnan. reflexivity.
Defined.

(* ================================================================= *)
(** ** EMA and MACD *)

(** Finite results are in lowest terms, so that numerically equal results
    of arithmetic are the same term. *)
Lemma Qred_idem (q : Q) : Qred (Qred q) = Qred q.
Proof. apply Qred_complete, Qred_correct. Qed.

Lemma canonical_eq (a b : Q) : Qred a = a -> Qred b = b -> a == b -> a = b.
Proof. intros Ha Hb H. rewrite <- Ha, <- Hb. now apply Qred_complete. Qed.

Lemma nsub_fin_inv (x y : num) (m : Q) :
  x - y = Fin m -> exists a b, x = Fin a /\ y = Fin b /\ m = Qred (a - b).
Proof.
  destruct x as [a| | |], y as [b| | |]; cbn; try discriminate.
  intros [= <-]. now exists a, b.
Qed.

Section EMA.

(** The multiplier [2 / (period + 1)] of the call at hand is the finite
    number [k]. *)
Variables (period : num) (k : Q).
Hypothesis multiplier_fin : 2 / (period + 1) = Fin k.

Let step (ema d : num) : num := (d - ema) * Fin k + ema.

Lemma ema_fold_fin (rest : list Q) (e0 : Q) :
  exists e, fold_left step (map Fin rest) (Fin e0) = Fin e.
Proof.
  revert e0. induction rest as [|d rest IH]; intros e0.
  - now exists e0.
  - cbn [map fold_left]. unfold step at 2. cbn [nsub nmul nadd]. apply IH.
Qed.

Lemma calculateEMA_fin (data : list Q) :
  exists e, calculateEMA (map Fin data) period = Fin e.
Proof.
  unfold calculateEMA. destruct data as [|d0 rest].
  - now exists 0%Q.
  - cbn [map]. rewrite multiplier_fin. apply ema_fold_fin.
Qed.

(** On a constant series the running value stays at the constant, and
    stays in lowest terms if it started so. *)
Lemma ema_fold_const (m : Q) (n : nat) (e0 : Q) :
  e0 == m ->
  exists e,
    fold_left step (repeat (Fin m) n) (Fin e0) = Fin e /\
    e == m /\ (Qred e0 = e0 -> Qred e = e).
Proof.
  revert e0. induction n as [|n IH]; intros e0 He.
  - now exists e0.
  - cbn [repeat fold_left]. unfold step at 2. cbn [nsub nmul nadd].
    destruct (IH (Qred (Qred (Qred (m - e0) * k) + e0))) as (e & Hf & Hm & Hc).
    + rewrite !Qred_correct, He. ring.
    + exists e. split; [exact Hf|]. split; [exact Hm|].
      intros _. apply Hc. apply Qred_idem.
Qed.

(** The EMA of a non-empty constant series is its constant. *)
Lemma calculateEMA_const (m : Q) (n : nat) :
  calculateEMA (repeat (Fin m) (S n)) period =n= Fin m.
Proof.
  unfold calculateEMA. cbn [repeat]. rewrite multiplier_fin.
  destruct (ema_fold_const m n m) as (e & Hfold & He & _); [reflexivity|].
  unfold step in Hfold. rewrite Hfold. exact He.
Qed.

Lemma calculateEMA_const_eq (m : Q) (n : nat) :
  Qred m = m -> calculateEMA (repeat (Fin m) (S n)) period = Fin m.
Proof.
  intros Hm. unfold calculateEMA. cbn [repeat]. rewrite multiplier_fin.
  destruct (ema_fold_const m n m) as (e & Hfold & He & Hc); [reflexivity|].
  unfold step in Hfold. rewrite Hfold. f_equal.
  apply canonical_eq; auto.
Qed.

End EMA.

Section MACD.

Lemma multiplier_9 : 2 / (Fin 9 + 1) = Fin (1 # 5).
Proof. reflexivity. Qed.

Lemma multiplier_12 : 2 / (Fin 12 + 1) = Fin (2 # 13).
Proof. reflexivity. Qed.

Lemma multiplier_26 : 2 / (Fin 26 + 1) = Fin (2 # 27).
Proof. reflexivity. Qed.

Lemma nadd_zero_r (x : num) : x + Fin 0 =n= x.
Proof.
  destruct x; cbn [nadd num_eq]; try exact I.
  rewrite Qred_correct. ring.
Qed.

Lemma macd_is_fin (closes : list Q) :
  exists m, macd (calculateMACD (map Fin closes)) = Fin m.
Proof.
  unfold calculateMACD. cbn [macd].
  destruct (calculateEMA_fin 12 _ multiplier_12 closes) as (e12 & ->).
  destruct (calculateEMA_fin 26 _ multiplier_26 closes) as (e26 & ->).
  cbn [nsub]. eauto.
Qed.

(** Whenever [macd] is finite, [signal] is [macd] and [histogram] is 0. *)
Lemma macd_signal_histogram (closes : list num) (m : Q) :
  macd (calculateMACD closes) = Fin m ->
  signal (calculateMACD closes) = Fin m /\
  histogram (calculateMACD closes) = Fin 0.
Proof.
  unfold calculateMACD. cbn [macd signal histogram]. intros Hm.
  destruct (nsub_fin_inv _ _ _ Hm) as (a & b & _ & _ & Hred).
  rewrite Hm.
  assert (Hs : calculateEMA (repeat (Fin m) 9) 9 = Fin m).
  { apply (calculateEMA_const_eq 9 _ multiplier_9 m 8).
    rewrite Hred. apply Qred_idem. }
  split; [exact Hs|].
  rewrite Hs. cbn [nsub]. f_equal.
  change 0%Q with (Qred 0). apply Qred_complete. ring.
Qed.

(** The MACD term of the momentum score vanishes on finite closes. *)
Lemma macd_term_zero (closes : list Q) :
  macd_contribution (histogram (calculateMACD (map Fin closes))) = Fin 0.
Proof.
  destruct (macd_is_fin closes) as (m & Hm).
  destruct (macd_signal_histogram _ m Hm) as (_ & ->). reflexivity.
Qed.

(** When [macd] is not a finite number, neither [signal] nor [histogram]
    is a number. *)
Lemma macd_not_finite (closes : list num) :
  (forall m : Q, macd (calculateMACD closes) <> Fin m) ->
  signal (calculateMACD closes) = NaN /\
  histogram (calculateMACD closes) = NaN.
Proof.
  unfold calculateMACD. cbn [macd signal histogram].
  generalize (calculateEMA closes 12 - calculateEMA closes 26).
  intros [m| | |] H.
  - now destruct (H m).
  - split; reflexivity.
  - split; reflexivity.
  - split; reflexivity.
Qed.

End MACD.

Section MACDClaim.

Import PrimFloat.

(** C6, as stated, fails on the code.  A close that is [NaN] makes [macd]
    and [histogram] [NaN], not 0, and with it the whole momentum score.
    On the two finite closes [2^1023] and [-2^1023] the binary64
    operations of the code overflow: the two EMAs are [-Infinity], and
    [macd], [signal] and [histogram] are [NaN]. *)
Lemma macd_signal_is_macd_counterexample :
  (histogram (calculateMACD [NaN]) = NaN /\
   ~ histogram (calculateMACD [NaN]) =n= Fin 0 /\
   calculateMomentumScore (repeat (mkKline 1 1 NaN 1) 20) = NaN) /\
  (let closes := [0x1p+1023; -0x1p+1023]%float in
   Binary64.calculateEMA closes 12 = neg_infinity /\
   is_nan (Binary64.macd (Binary64.calculateMACD closes)) = true /\
   is_nan (Binary64.signal (Binary64.calculateMACD closes)) = true /\
   is_nan (Binary64.histogram (Binary64.calculateMACD closes)) = true).
Proof.
  split.
  - split; [reflexivity|]. split; [|reflexivity].
    intros H. exact H.
  - cbv zeta. split; [|split; [|split]]; reflexivity.
Qed.

(** C6, amended.  For every list of closes on which [macd] comes out a
    finite number, [calculateMACD] returns a [signal] equal to [macd] and a
    [histogram] equal to 0: the EMA of the nine-element array filled with
    [macd], seeded with its first element, is [macd].  The MACD term of the
    momentum score is then 0, and the momentum score is the clamped sum of
    its RSI and trend terms.  When [macd] is not a finite number, [signal]
    and [histogram] are [NaN]. *)
Theorem macd_signal_is_macd :
  (forall m : Q, calculateEMA (repeat (Fin m) 9) 9 =n= Fin m) /\
  (forall (closes : list num) (m : Q),
      macd (calculateMACD closes) = Fin m ->
      signal (calculateMACD closes) = macd (calculateMACD closes) /\
      histogram (calculateMACD closes) = Fin 0 /\
      macd_contribution (histogram (calculateMACD closes)) = Fin 0) /\
  (forall (klines : list kline) (m : Q),
      (20 <= List.length klines)%nat ->
      macd (calculateMACD (map close klines)) = Fin m ->
      calculateMomentumScore klines
      =n= Math_max (-30)
            (Math_min 30
               (rsi_contribution (calculateRSI (map close klines) RSI_PERIOD)
                + trend_contribution (trendStrength (map close klines))))) /\
  (forall closes : list num,
      (forall m : Q, macd (calculateMACD closes) <> Fin m) ->
      signal (calculateMACD closes) = NaN /\
      histogram (calculateMACD closes) = NaN).
Proof.
  split; [|split; [|split]].
  - intros m. apply (calculateEMA_const 9 _ multiplier_9 m 8).
  - intros closes m Hm.
    destruct (macd_signal_histogram _ m Hm) as (Hs & Hh).
    split; [|split].
    + now rewrite Hs, Hm.
    + exact Hh.
    + now rewrite Hh.
  - intros klines m Hlen Hm. unfold calculateMomentumScore.
    destruct (Nat.ltb_spec (List.length klines) 20) as [H|_]; [lia|].
    cbv zeta.
    destruct (macd_signal_histogram _ m Hm) as (_ & ->).
    change (macd_contribution (Fin 0)) with (Fin 0).
    now rewrite nadd_zero_r.
  - exact macd_not_finite.
Qed.

End MACDClaim.

(** C6, on twenty candles of a rising series. *)
Lemma macd_signal_is_macd_witness :
  let klines :=
    map (fun c : Q => mkKline c c c 1)
      [100; 101; 102; 103; 104; 105; 106; 107; 108; 109;
       110; 111; 112; 113; 114; 115; 116; 117; 118; 119]%Q in
  (20 <= List.length klines)%nat /\
  (exists m : Q, macd (calculateMACD (map close klines)) = Fin m) /\
  histogram (calculateMACD (map close klines)) = Fin 0 /\
  calculateMomentumScore klines
  =n= Math_max (-30)
        (Math_min 30
           (rsi_contribution (calculateRSI (map close klines) RSI_PERIOD)
            + trend_contribution (trendStrength (map close klines)))).
Proof.
  intros klines.
  assert (Hlen : (20 <= List.length klines)%nat) by (simpl; lia).
  assert (Hm : exists m : Q, macd (calculateMACD (map close klines)) = Fin m)
    by (eexists; vm_compute; reflexivity).
  split; [exact Hlen|]. split; [exact Hm|].
  destruct Hm as (m & Hm).
  destruct macd_signal_is_macd as (_ & Hfin & Hmom & _).
  split.
  - exact (proj1 (proj2 (Hfin _ m Hm))).
  - exact (Hmom klines m Hlen Hm).
Defined.

(* ================================================================= *)
(** ** A flat price series *)

Section FlatSeries.

Lemma at_index_repeat (x : num) (n i : nat) :
  (i < n)%nat -> at_index (repeat x n) i = x.
Proof. intros H. unfold at_index. now apply nth_repeat_lt. Qed.

Lemma at_index_slice_last (a : list num) (n i : nat) :
  at_index (slice_last n a) i = at_index a (List.length a - n + i).
Proof. unfold at_index, slice_last. apply nth_skipn. Qed.

Lemma closes_of_flat (klines : list kline) (c : num) :
  Forall (fun k => close k = c) klines ->
  map close klines = repeat c (List.length klines).
Proof.
  induction 1 as [|k ks Hk _ IH]; [reflexivity|].
  cbn [map List.length repeat]. now rewrite Hk, IH.
Qed.

Variables (c : Q) (n : nat).

Let closes := repeat (Fin c) n.

(** Over a flat window the loop of [calculateRSI] leaves [gains] at 0 and
    [losses] at a value equal to 0. *)
Lemma rsi_loop_flat (len start : nat) (l : Q) :
  (1 <= start)%nat -> (start + len <= n)%nat -> l == 0 ->
  exists l',
    fold_left (rsi_step closes) (seq start len) (Fin 0, Fin l)
    = (Fin 0, Fin l') /\ l' == 0.
Proof.
  revert start l. induction len as [|len IH]; intros start l Hs Hn Hl.
  - now exists l.
  - cbn [seq fold_left]. unfold rsi_step at 2. unfold closes.
    rewrite !at_index_repeat by lia. cbn [nsub].
    assert (Hz : Qred (c - c) == 0) by (rewrite Qred_correct; ring).
    destruct (Fin (Qred (c - c)) >? 0) eqn:E.
    + apply ngt_fin in E. exfalso. lra.
    + apply IH; [lia|lia|]. rewrite Qred_correct, Hz, Hl. ring.
Qed.

Lemma calculateRSI_flat :
  (15 <= n)%nat -> calculateRSI closes RSI_PERIOD = Fin 100.
Proof.
  intros Hn. unfold calculateRSI, RSI_PERIOD.
  destruct (Nat.ltb_spec (List.length closes) (14 + 1)) as [H|_].
  { unfold closes in H. rewrite repeat_length in H. lia. }
  destruct (rsi_loop_flat 14 1 0) as (l & -> & Hl); [lia|lia|reflexivity|].
  unfold of_nat. cbn [ndiv].
  change (Qeq_bool (inject_Z (Z.of_nat 14)) 0) with false. cbv iota.
  assert (E : (Fin (Qred (l / inject_Z (Z.of_nat 14))) === 0) = true).
  { apply nseq_fin. rewrite Qred_correct, Hl. reflexivity. }
  now rewrite E.
Qed.

Hypothesis c_pos : 0 < c.

Lemma trendStrength_flat :
  (5 <= n)%nat -> trendStrength closes =n= Fin 0.
Proof.
  intros Hn. unfold trendStrength, closes. cbv zeta.
  rewrite !at_index_slice_last, repeat_length.
  rewrite !at_index_repeat by lia. cbn [nsub ndiv].
  assert (E : Qeq_bool c 0 = false).
  { destruct (Qeq_bool c 0) eqn:E; [|reflexivity].
    apply Qeq_bool_iff in E. lra. }
  rewrite E. cbn [nmul num_eq]. rewrite !Qred_correct.
  field. lra.
Qed.

Lemma calculateMACD_flat :
  macd_contribution (histogram (calculateMACD closes)) = Fin 0.
Proof.
  unfold closes. rewrite <- (@map_repeat _ _ c n Fin). apply macd_term_zero.
Qed.

End FlatSeries.

Lemma ncompare_refl_not_lt (x y : num) : x =n= y -> ncompare y x <> Some Lt.
Proof.
  intros H. rewrite H. destruct y; cbn [ncompare]; try discriminate.
  rewrite (proj1 (Qeq_alt q q)); [discriminate|reflexivity].
Qed.

(** A [Math.max] that equals its first argument in value is that
    argument. *)
Lemma Math_max_left (x y : num) : Math_max x y =n= x -> Math_max x y = x.
Proof.
  unfold Math_max. destruct (ncompare x y) as [[]|] eqn:E; try reflexivity.
  - intros H. exfalso. exact (ncompare_refl_not_lt y x H E).
  - destruct x; cbn [num_eq]; intros H; try contradiction. reflexivity.
Qed.

(** C9. On at least 20 candles whose closes all equal one positive value,
    [calculateMomentumScore] returns -30: every delta is 0, so [avgLoss]
    is 0 and [calculateRSI] returns 100; the overbought branch contributes
    [-(100 - 70) * 1.5 = -45]; the MACD and trend terms are 0; and the sum
    -45 is clamped to -30. *)
Theorem momentum_flat_series (klines : list kline) (c : Q) :
  (20 <= List.length klines)%nat ->
  0 < c ->
  Forall (fun k => close k = Fin c) klines ->
  calculateRSI (map close klines) RSI_PERIOD = Fin 100 /\
  rsi_contribution (Fin 100) = Fin (-45) /\
  macd_contribution (histogram (calculateMACD (map close klines))) = Fin 0 /\
  trend_contribution (trendStrength (map close klines)) =n= Fin 0 /\
  calculateMomentumScore klines = Fin (-30).
Proof.
  intros Hlen Hc Hflat.
  pose proof (closes_of_flat klines (Fin c) Hflat) as Hcl.
  assert (Hrsi : calculateRSI (map close klines) RSI_PERIOD = Fin 100).
  { rewrite Hcl. apply calculateRSI_flat. lia. }
  assert (Hmacd : macd_contribution
                    (histogram (calculateMACD (map close klines))) = Fin 0).
  { rewrite Hcl. apply calculateMACD_flat. }
  assert (Htrend : trend_contribution (trendStrength (map close klines))
                   =n= Fin 0).
  { rewrite Hcl. unfold trend_contribution.
    rewrite (trendStrength_flat c _ Hc) by lia. reflexivity. }
  split; [exact Hrsi|]. split; [reflexivity|].
  split; [exact Hmacd|]. split; [exact Htrend|].
  unfold calculateMomentumScore.
  destruct (Nat.ltb_spec (List.length klines) 20) as [H|_]; [lia|].
  cbv zeta. rewrite Hrsi, Hmacd.
  apply Math_max_left. rewrite Htrend. reflexivity.
Qed.

(** C9, on twenty candles closing at 100. *)
Lemma momentum_flat_series_witness :
  calculateMomentumScore (repeat (mkKline 101 99 100 3) 20) = Fin (-30).
Proof.
  apply (momentum_flat_series (repeat (mkKline 101 99 100 3) 20) 100).
  - simpl. lia.
  - reflexivity.
  - repeat constructor.
Defined.

(* ================================================================= *)
(** ** Sentiment score *)

Section Sentiment.

Lemma ngt_num_eq (x y : num) : x =n= y -> (x >? y) = false.
Proof.
  intros H. rewrite H. unfold ngt.
  destruct y; cbn [ncompare]; try reflexivity.
  now rewrite (proj1 (Qeq_alt q q)).
Qed.

(** The rule table of [calculateSentimentScore], after its clamp. *)
Lemma sentiment_table (priceUp strongVolume : bool) :
  let score : num :=
    if priceUp && strongVolume then 15
    else if negb priceUp && strongVolume then -15
    else if priceUp then 8
    else -8 in
  Math_max (-20) (Math_min 20 score)
  = if priceUp
    then (if strongVolume then Fin 15 else Fin 8)
    else (if strongVolume then Fin (-15) else Fin (-8)).
Proof. destruct priceUp, strongVolume; reflexivity. Qed.

Lemma closes_of_window (klines : list kline) (i : nat) :
  at_index (map close (slice_last 10 klines)) i
  = at_index (map close klines) (List.length klines - 10 + i).
Proof.
  unfold slice_last. rewrite <- skipn_map.
  unfold at_index. apply nth_skipn.
Qed.

(** C10. On at least 10 candles, whatever their volumes,
    [calculateSentimentScore] returns -15, -8, 8 or 15 and never 0; when
    the last close of the 10-candle window equals its first close the
    result is -8 or -15, the price-up test being strict.  Each of the four
    values is reached on candles with positive volumes. *)
Theorem sentiment_score_values :
  (forall klines,
      (10 <= List.length klines)%nat ->
      (calculateSentimentScore klines = Fin (-15) \/
       calculateSentimentScore klines = Fin (-8) \/
       calculateSentimentScore klines = Fin 8 \/
       calculateSentimentScore klines = Fin 15) /\
      ~ calculateSentimentScore klines =n= Fin 0 /\
      (at_index (map close klines) (List.length klines - 1)
       =n= at_index (map close klines) (List.length klines - 10) ->
       calculateSentimentScore klines = Fin (-8) \/
       calculateSentimentScore klines = Fin (-15))) /\
  (let quiet := repeat (mkKline 100 100 100 1) 9 in
   let positive ks := forallb (fun k => volume k >? 0) ks = true in
   (positive (quiet ++ [mkKline 101 101 101 2]) /\
    calculateSentimentScore (quiet ++ [mkKline 101 101 101 2]) = Fin 15) /\
   (positive (quiet ++ [mkKline 99 99 99 2]) /\
    calculateSentimentScore (quiet ++ [mkKline 99 99 99 2]) = Fin (-15)) /\
   (positive (quiet ++ [mkKline 101 101 101 1]) /\
    calculateSentimentScore (quiet ++ [mkKline 101 101 101 1]) = Fin 8) /\
   (positive (quiet ++ [mkKline 99 99 99 1]) /\
    calculateSentimentScore (quiet ++ [mkKline 99 99 99 1]) = Fin (-8)) /\
   (positive (quiet ++ [mkKline 100 100 100 1]) /\
    calculateSentimentScore (quiet ++ [mkKline 100 100 100 1]) = Fin (-8)) /\
   (positive (quiet ++ [mkKline 100 100 100 2]) /\
    calculateSentimentScore (quiet ++ [mkKline 100 100 100 2]) = Fin (-15))).
Proof.
  split.
  - intros klines Hlen. unfold calculateSentimentScore.
    destruct (Nat.ltb_spec (List.length klines) 10) as [H|_]; [lia|].
    cbv zeta. rewrite sentiment_table. rewrite !closes_of_window.
    replace (List.length klines - 10 + 9)%nat
      with (List.length klines - 1)%nat by lia.
    replace (List.length klines - 10 + 0)%nat
      with (List.length klines - 10)%nat by lia.
    match goal with
    | |- context [if ?p then (if ?v then _ else _) else _] =>
        destruct p eqn:Hp; destruct v
    end;
      (split; [tauto|]); (split; [intros H; cbv in H; discriminate H|]);
      intros Heq; try tauto;
      apply ngt_num_eq in Heq; congruence.
  - cbv zeta. repeat split; vm_compute; reflexivity.
Qed.

End Sentiment.

(** C10, on ten candles with an unchanged close and a volume spike. *)
Lemma sentiment_score_values_witness :
  calculateSentimentScore
    (repeat (mkKline 100 100 100 1) 9 ++ [mkKline 100 100 100 3])
  = Fin (-8) \/
  calculateSentimentScore
    (repeat (mkKline 100 100 100 1) 9 ++ [mkKline 100 100 100 3])
  = Fin (-15).
Proof.
  apply (proj1 sentiment_score_values
           (repeat (mkKline 100 100 100 1) 9 ++ [mkKline 100 100 100 3])).
  - simpl. lia.
  - reflexivity.
Defined.

(* ================================================================= *)
(** ** The hold-period check *)

Section HoldPeriod.

(** [newer a b]: [a] was generated no earlier than [b]. *)
Let newer (a b : signal_record) : Prop :=
  (generated_at b <= generated_at a)%Z.

Lemma insert_desc_Forall (P : signal_record -> Prop) r rows :
  P r -> Forall P rows -> Forall P (insert_desc r rows).
Proof.
  intros Hr. induction 1 as [|r' rest Hr' Hrest IH]; cbn [insert_desc].
  - auto.
  - destruct (generated_at r' <=? generated_at r)%Z; auto.
Qed.

Lemma insert_desc_In r rows x :
  In x (insert_desc r rows) <-> x = r \/ In x rows.
Proof.
  induction rows as [|r' rest IH]; cbn [insert_desc].
  - cbn. intuition.
  - destruct (generated_at r' <=? generated_at r)%Z; cbn [In].
    + intuition.
    + rewrite IH. intuition.
Qed.

Lemma insert_desc_sorted r rows :
  StronglySorted newer rows -> StronglySorted newer (insert_desc r rows).
Proof.
  induction 1 as [|r' rest Hs IH Hall]; cbn [insert_desc].
  - repeat constructor.
  - destruct (Z.leb_spec (generated_at r') (generated_at r)) as [Hle|Hgt].
    + constructor; [constructor; assumption|].
      constructor; [exact Hle|].
      apply Forall_impl with (2 := Hall). unfold newer. intros; lia.
    + constructor; [exact IH|].
      apply insert_desc_Forall; [unfold newer; lia|exact Hall].
Qed.

Lemma order_sorted rows : StronglySorted newer (order_generated_at_desc rows).
Proof.
  unfold order_generated_at_desc.
  induction rows as [|r rest IH]; cbn [fold_right].
  - constructor.
  - now apply insert_desc_sorted.
Qed.

Lemma order_In rows x : In x (order_generated_at_desc rows) <-> In x rows.
Proof.
  unfold order_generated_at_desc.
  induction rows as [|r rest IH]; cbn [fold_right In].
  - tauto.
  - rewrite insert_desc_In, IH. intuition.
Qed.

Lemma single_limit_1 rows :
  single (limit 1 rows)
  = match rows with [] => None | r :: _ => Some r end.
Proof. destruct rows as [|r [|r' rest]]; reflexivity. Qed.

Lemma timeframe_eqb_eq a b : timeframe_eqb a b = true <-> a = b.
Proof. destruct a, b; cbn; split; intros H; try discriminate; reflexivity. Qed.

Variables (db : signals_table) (marketId : string) (tf : timeframe).

(** A row of the table that belongs to the key. *)
Let matching (r : signal_record) : Prop :=
  In r db /\ market_id r = marketId /\ sig_timeframe r = tf.

Lemma matching_filter r :
  In r (eq_timeframe tf (eq_market_id marketId db)) <-> matching r.
Proof.
  unfold eq_timeframe, eq_market_id, matching.
  rewrite !filter_In, String.eqb_eq, timeframe_eqb_eq. tauto.
Qed.

(** The row read by the query is a newest row of the key, and there is
    one as soon as the key has a row. *)
Lemma latest_signal_spec :
  match latest_signal db marketId tf with
  | None => forall r, ~ matching r
  | Some s => matching s /\ forall r, matching r -> newer s r
  end.
Proof.
  unfold latest_signal. rewrite single_limit_1.
  pose proof (order_sorted (eq_timeframe tf (eq_market_id marketId db)))
    as Hsorted.
  pose proof (order_In (eq_timeframe tf (eq_market_id marketId db)))
    as Hin.
  destruct (order_generated_at_desc
              (eq_timeframe tf (eq_market_id marketId db))) as [|s rest].
  - intros r Hr. apply matching_filter, Hin in Hr. destruct Hr.
  - split.
    + apply matching_filter, Hin. now left.
    + intros r Hr. apply matching_filter, Hin in Hr.
      destruct Hr as [<-|Hr]; [unfold newer; lia|].
      inversion Hsorted as [|? ? _ Hall]; subst.
      rewrite Forall_forall in Hall. now apply Hall.
Qed.


End HoldPeriod.



(* ================================================================= *)
(** ** Scenarios *)

(** Fifteen closes are enough for the RSI to be computed: fourteen flat
    closes and one rise leave [avgLoss] at 0. *)
Example rsi_fifteen_points :
  calculateRSI (repeat (Fin 100) 14 ++ [Fin 101]) RSI_PERIOD = Fin 100.
Proof. reflexivity. Qed.

Example rsi_mixed_window :
  calculateRSI
    (map Fin [100; 101; 100; 102; 101; 103; 102; 104; 103; 105; 104; 106;
              105; 107; 106]%Q) RSI_PERIOD
  = Fin 65.
Proof. vm_compute. reflexivity. Qed.

Example aggressive_at_full_confidence :
  decide (THRESHOLDS aggressive) (confidence_of 30 30 30)
  = {| d_direction := UP; d_tradeable := true; d_confidence := Some (Fin 100) |}.
Proof. reflexivity. Qed.

Example signal_up :
  let klines :=
    map (fun c : Q => mkKline (c + 1)%Q (c - 1)%Q c 10)
      [100; 101; 100; 102; 101; 103; 102; 104; 103; 105;
       104; 106; 105; 107; 106; 108; 107; 109; 108; 120]%Q in
  let s :=
    generateSignal "ETH" TF_daily aggressive klines (mkOrderBook 30 10 0.75)
      1000 0.9 in
  (market_id s, sig_direction s, confidence s, tradeable s, conflict_pass s,
   hold_until s)
  = ("eth-usd"%string, UP, Some (Fin 82), true, true, 1801000%Z).
Proof. vm_compute. reflexivity. Qed.

Example signal_flat :
  let s :=
    generateSignal "BTC" TF_15m aggressive
      (repeat (mkKline 101 99 100 3) 20) (mkOrderBook 9 1 0.9) 1000 0.5 in
  (sig_direction s, confidence s, tradeable s, momentum_score s,
   rationale s)
  = (FLAT, None, false, Fin (-30),
     Some "Choppy price action (RSI: 100)"%string).
Proof. vm_compute. reflexivity. Qed.

Example signal_down :
  let s :=
    generateSignal "BTC" TF_15m aggressive
      (repeat (mkKline 101 99 100 3) 20) (mkOrderBook 8 2 0.8) 1000 0.5 in
  (sig_direction s, confidence s, tradeable s, sentiment_score s,
   rationale s)
  = (DOWN, Some (Fin 37), true, Fin (-8),
     Some "15m bearish momentum (MO: -30)"%string).
Proof. vm_compute. reflexivity. Qed.

(* ================================================================= *)
(** ** RSI on finite closes *)

Lemma Qeq_bool_false (q : Q) : ~ q == 0 -> Qeq_bool q 0 = false.
Proof.
  intros H. destruct (Qeq_bool q 0) eqn:E; [|reflexivity].
  apply Qeq_bool_iff in E. contradiction.
Qed.

Lemma at_index_map_Fin (qs : list Q) (i : nat) :
  (i < List.length qs)%nat -> at_index (map Fin qs) i = Fin (nth i qs 0%Q).
Proof.
  intros H. unfold at_index.
  rewrite (nth_indep _ NaN (Fin 0)) by (rewrite length_map; lia).
  apply (map_nth Fin).
Qed.

Lemma of_nat_pos (n : nat) : (1 <= n)%nat -> 0 < inject_Z (Z.of_nat n).
Proof. intros H. unfold Qlt, inject_Z. cbn. lia. Qed.

Section RSIFinite.

Variable qs : list Q.

(** The change read at turn [i] of the loop. *)
Let delta (i : nat) : Q := (nth i qs 0 - nth (i - 1) qs 0)%Q.

Lemma rsi_loop_fin (len : nat) :
  forall (start : nat) (g l : Q),
    (1 <= start)%nat -> (start + len <= List.length qs)%nat ->
    exists g' l',
      fold_left (rsi_step (map Fin qs)) (seq start len) (Fin g, Fin l)
      = (Fin g', Fin l') /\
      g <= g' /\ l <= l' /\
      ((forall i, (start <= i < start + len)%nat -> 0 <= delta i) ->
       l' == l) /\
      ((forall i, (start <= i < start + len)%nat -> delta i <= 0) ->
       g' == g) /\
      ((exists i, (start <= i < start + len)%nat /\ delta i < 0) -> l < l').
Proof.
  induction len as [|len IH]; intros start g l Hs Hn.
  - exists g, l. cbn. repeat split; try lra.
    intros (i & Hi & _). lia.
  - cbn [seq fold_left]. unfold rsi_step at 2.
    rewrite !at_index_map_Fin by lia. cbn [nsub].
    assert (Hd : Qred (nth start qs 0 - nth (start - 1) qs 0) == delta start)
      by (unfold delta; apply Qred_correct).
    destruct (Fin (Qred (nth start qs 0 - nth (start - 1) qs 0)) >? 0) eqn:E.
    + apply ngt_fin in E. cbn [nadd].
      destruct (IH (S start)
                  (Qred (g + Qred (nth start qs 0 - nth (start - 1) qs 0))) l)
        as (g' & l' & Hf & Hg & Hl & Hup & Hdown & Hfall); [lia|lia|].
      rewrite Qred_correct in Hg.
      exists g', l'. split; [exact Hf|].
      split; [lra|]. split; [lra|]. split; [|split].
      * intros H. apply Hup. intros i Hi. apply H. lia.
      * intros H. exfalso. specialize (H start). lapply H; [|lia]. lra.
      * intros (i & Hi & Hneg). apply Hfall. exists i. split; [|exact Hneg].
        assert (i <> start) by (intros ->; lra). lia.
    + apply ngt_fin_false in E. cbn [nsub].
      destruct (IH (S start) g
                  (Qred (l - Qred (nth start qs 0 - nth (start - 1) qs 0))))
        as (g' & l' & Hf & Hg & Hl & Hup & Hdown & Hfall); [lia|lia|].
      rewrite Qred_correct in Hl.
      exists g', l'. split; [exact Hf|].
      split; [lra|]. split; [lra|]. split; [|split].
      * intros H. rewrite Hup by (intros i Hi; apply H; lia).
        rewrite Qred_correct.
        assert (0 <= delta start) by (apply H; lia). lra.
      * intros H. apply Hdown. intros i Hi. apply H. lia.
      * intros (i & Hi & Hneg).
        destruct (Nat.eq_dec i start) as [->|Hne]; [lra|].
        assert (Qred (l - Qred (nth start qs 0 - nth (start - 1) qs 0)) < l')
          by (apply Hfall; exists i; split; [lia|exact Hneg]).
        rewrite Qred_correct in H. lra.
Qed.

Variable period : nat.
Hypothesis period_pos : (1 <= period)%nat.
Hypothesis enough : (period + 1 <= List.length qs)%nat.

(** The value of [calculateRSI] in terms of the two sums of its loop. *)
Lemma calculateRSI_sums :
  exists g l,
    0 <= g /\ 0 <= l /\
    (l == 0 -> calculateRSI (map Fin qs) period = Fin 100) /\
    (0 < l ->
     calculateRSI (map Fin qs) period =n= Fin (100 * g / (g + l))) /\
    ((forall i, (1 <= i <= period)%nat -> 0 <= delta i) -> l == 0) /\
    ((forall i, (1 <= i <= period)%nat -> delta i <= 0) -> g == 0) /\
    ((exists i, (1 <= i <= period)%nat /\ delta i < 0) -> 0 < l).
Proof.
  destruct (rsi_loop_fin period 1 0 0) as
    (g & l & Hf & Hg & Hl & Hup & Hdown & Hfall); [lia|lia|].
  exists g, l. split; [exact Hg|]. split; [exact Hl|].
  pose proof (of_nat_pos period period_pos) as HP.
  assert (HPz : Qeq_bool (inject_Z (Z.of_nat period)) 0 = false)
    by (apply Qeq_bool_false; lra).
  split; [|split; [|split; [|split]]].
  - intros Hz. unfold calculateRSI.
    destruct (Nat.ltb_spec (List.length (map Fin qs)) (period + 1)) as [H|_].
    { rewrite length_map in H. lia. }
    rewrite Hf. unfold of_nat. cbn [ndiv]. rewrite HPz.
    assert (E : (Fin (Qred (l / inject_Z (Z.of_nat period))) === 0) = true).
    { apply nseq_fin. rewrite Qred_correct, Hz. field. lra. }
    now rewrite E.
  - intros Hpos. unfold calculateRSI.
    destruct (Nat.ltb_spec (List.length (map Fin qs)) (period + 1)) as [H|_].
    { rewrite length_map in H. lia. }
    rewrite Hf. unfold of_nat. cbn [ndiv]. rewrite HPz.
    set (P := inject_Z (Z.of_nat period)) in *.
    assert (Hal : 0 < l / P) by (apply Qlt_shift_div_l; lra).
    assert (Hag : 0 <= g / P) by (apply Qle_shift_div_l; lra).
    assert (E : (Fin (Qred (l / P)) === 0) = false).
    { apply Bool.not_true_iff_false. rewrite nseq_fin, Qred_correct. lra. }
    rewrite E.
    assert (E1 : Qeq_bool (Qred (l / P)) 0 = false).
    { apply Qeq_bool_false. rewrite Qred_correct. lra. }
    cbv zeta. cbn [ndiv]. rewrite E1. cbn [nadd ndiv].
    assert (Hrs : 0 <= Qred (g / P) / Qred (l / P)).
    { rewrite !Qred_correct. apply Qle_shift_div_l; lra. }
    assert (E2 : Qeq_bool (Qred (1 + Qred (Qred (g / P) / Qred (l / P)))) 0
                 = false).
    { apply Qeq_bool_false. rewrite !Qred_correct.
      rewrite !Qred_correct in Hrs. lra. }
    rewrite E2. cbn [nsub num_eq]. rewrite !Qred_correct.
    field. repeat split; lra.
  - intros H. rewrite Hup; [reflexivity|]. intros i Hi. apply H. lia.
  - intros H. rewrite Hdown; [reflexivity|]. intros i Hi. apply H. lia.
  - intros (i & Hi & Hneg). apply Hfall. exists i. split; [lia|exact Hneg].
Qed.

End RSIFinite.

Section RSIAnyInput.

(** The shapes of the two sums of the loop on closes of any kind: [gains]
    is a non-negative number or [+Infinity]; [losses] may also be [NaN]
    (a change that is [NaN] is subtracted from it). *)
Let nonneg (x : num) : Prop :=
  match x with
  | Fin q => 0 <= q
  | PInf => True
  | _ => False
  end.

Let nonneg_or_nan (x : num) : Prop := nonneg x \/ x = NaN.

Variable closes : list num.

Lemma rsi_step_shape (g l : num) (i : nat) :
  nonneg g -> nonneg_or_nan l ->
  nonneg (fst (rsi_step closes (g, l) i)) /\
  nonneg_or_nan (snd (rsi_step closes (g, l) i)).
Proof.
  unfold nonneg_or_nan, nonneg. intros Hg Hl. unfold rsi_step.
  generalize (at_index closes i - at_index closes (i - 1)).
  intros [c| | |].
  - destruct (Fin c >? 0) eqn:E;
      [apply ngt_fin in E | apply ngt_fin_false in E]; cbn [fst snd].
    + split; [|exact Hl].
      destruct g as [g0| | |]; cbn [nadd]; try tauto.
      rewrite Qred_correct. lra.
    + split; [exact Hg|].
      destruct Hl as [Hl| ->]; [|now right].
      destruct l as [l0| | |]; cbn [nsub nadd nneg]; try tauto.
      left. rewrite Qred_correct. lra.
  - change (PInf >? 0) with true. cbn [fst snd]. split; [|exact Hl].
    destruct g as [g0| | |]; cbn [nadd]; tauto.
  - change (NInf >? 0) with false. cbn [fst snd]. split; [exact Hg|].
    destruct Hl as [Hl| ->]; [|now right].
    destruct l as [l0| | |]; cbn [nsub nadd nneg]; tauto.
  - change (NaN >? 0) with false. cbn [fst snd]. split; [exact Hg|].
    right. destruct l; reflexivity.
Qed.

Lemma rsi_loop_shape (idxs : list nat) :
  forall g l,
    nonneg g -> nonneg_or_nan l ->
    nonneg (fst (fold_left (rsi_step closes) idxs (g, l))) /\
    nonneg_or_nan (snd (fold_left (rsi_step closes) idxs (g, l))).
Proof.
  induction idxs as [|i idxs IH]; intros g l Hg Hl.
  - now split.
  - cbn [fold_left].
    destruct (rsi_step_shape g l i Hg Hl) as (Hg' & Hl').
    destruct (rsi_step closes (g, l) i) as [g' l']. now apply IH.
Qed.

Lemma average_shape (x : num) (n : nat) :
  nonneg_or_nan x -> nonneg_or_nan (x / of_nat n).
Proof.
  unfold nonneg_or_nan, nonneg. intros Hx. unfold of_nat.
  assert (Hp : 0 <= inject_Z (Z.of_nat n)).
  { unfold Qle, inject_Z. cbn. lia. }
  revert Hp. generalize (inject_Z (Z.of_nat n)). intros p Hp.
  destruct Hx as [Hx| ->]; [|now right].
  destruct x as [q| | |]; try tauto.
  - cbn [ndiv]. destruct (Qeq_bool p 0) eqn:E.
    + destruct (Qcompare_spec q 0) as [H|H|H]; cbn [inf_of_sign].
      * now right.
      * exfalso. lra.
      * now left.
    + left. rewrite Qred_correct.
      apply Qeq_bool_neq in E.
      apply Qle_shift_div_l; lra.
  - left. cbn [ndiv].
    assert (E : Qle_bool 0 p = true) by (now apply Qle_bool_iff).
    now rewrite E.
Qed.

Lemma rsi_value_shape (avgGain avgLoss : num) :
  nonneg_or_nan avgGain -> nonneg_or_nan avgLoss ->
  let rsi :=
    if avgLoss === 0 then Fin 100
    else 100 - (100 / (1 + avgGain / avgLoss)) in
  rsi = NaN \/ exists r, rsi = Fin r /\ 0 <= r <= 100.
Proof.
  unfold nonneg_or_nan, nonneg. intros Hg Hl. cbv zeta.
  destruct (avgLoss === 0) eqn:Ez.
  { right. exists 100. split; [reflexivity|lra]. }
  destruct Hl as [Hl| ->]; [|left; now destruct avgGain].
  destruct Hg as [Hg| ->]; [|left; now destruct avgLoss].
  destruct avgLoss as [l| | |]; try tauto.
  - apply Bool.not_true_iff_false in Ez. rewrite nseq_fin in Ez.
    assert (Hlz : Qeq_bool l 0 = false) by now apply Qeq_bool_false.
    destruct avgGain as [g| | |]; try tauto.
    + right. cbn [ndiv]. rewrite Hlz. cbn [nadd ndiv].
      assert (Hrs : 0 <= Qred (g / l)).
      { rewrite Qred_correct. apply Qle_shift_div_l; lra. }
      rewrite Qeq_bool_false by (rewrite Qred_correct; lra).
      cbn [nsub]. eexists. split; [reflexivity|].
      rewrite !Qred_correct. rewrite Qred_correct in Hrs.
      assert (H1 : 1 <= 1 + g / l) by lra.
      revert H1. generalize (1 + g / l)%Q. intros x Hx.
      assert (0 <= 100 / x) by (apply Qle_shift_div_l; lra).
      assert (100 / x <= 100) by (apply Qle_shift_div_r; lra).
      lra.
    + right. cbn [ndiv].
      assert (E : Qle_bool 0 l = true) by (now apply Qle_bool_iff).
      rewrite E. exists 100. split; [reflexivity|lra].
  - destruct avgGain as [g| | |]; try tauto.
    right. exists 0. split; [reflexivity|lra].
Qed.

End RSIAnyInput.

(** X1. Whatever the closes (numbers, infinities or [NaN]) and the
    period, [calculateRSI] returns [NaN] or a number between 0 and 100:
    never an infinity, never a number outside the range. *)
Theorem calculateRSI_range (closes : list num) (period : nat) :
  calculateRSI closes period = NaN \/
  exists r, calculateRSI closes period = Fin r /\ 0 <= r <= 100.
Proof.
  unfold calculateRSI.
  destruct (List.length closes <? period + 1)%nat.
  { right. exists 50. split; [reflexivity|lra]. }
  destruct (rsi_loop_shape closes (seq 1 period) (Fin 0) (Fin 0))
    as (Hg & Hl); [lra|left; lra|].
  destruct (fold_left (rsi_step closes) (seq 1 period) (Fin 0, Fin 0))
    as [gains losses].
  cbn [fst snd] in Hg, Hl.
  apply rsi_value_shape; apply average_shape; [now left|exact Hl].
Qed.

(** X2. Over a window (the first [period + 1] closes, all finite) that
    never falls, [calculateRSI] is 100; over a window that never rises it
    is 0 or 100, nothing in between. *)
Theorem calculateRSI_one_way (qs : list Q) (period : nat) :
  (1 <= period)%nat ->
  (period + 1 <= List.length qs)%nat ->
  ((forall i, (1 <= i <= period)%nat ->
              nth (i - 1) qs 0%Q <= nth i qs 0%Q) ->
   calculateRSI (map Fin qs) period = Fin 100) /\
  ((forall i, (1 <= i <= period)%nat ->
              nth i qs 0%Q <= nth (i - 1) qs 0%Q) ->
   calculateRSI (map Fin qs) period = Fin 100 \/
   calculateRSI (map Fin qs) period =n= Fin 0).
Proof.
  intros Hp Hn.
  destruct (calculateRSI_sums qs period Hp Hn)
    as (g & l & Hg & Hl & Hzero & Hpos & Hup & Hdown & Hfall).
  split.
  - intros H. apply Hzero, Hup. intros i Hi. specialize (H i Hi). lra.
  - intros H.
    assert (Hg0 : g == 0).
    { apply Hdown. intros j Hj. specialize (H j Hj). lra. }
    destruct (Qlt_le_dec 0 l) as [Hl0|Hl0].
    + right. rewrite (Hpos Hl0). cbn [num_eq]. rewrite Hg0. field. lra.
    + left. apply Hzero. lra.
Qed.

Lemma calculateRSI_one_way_witness :
  calculateRSI (map Fin [10; 10; 12; 15]%Q) 3 = Fin 100 /\
  (calculateRSI (map Fin [15; 12; 12; 10]%Q) 3 = Fin 100 \/
   calculateRSI (map Fin [15; 12; 12; 10]%Q) 3 =n= Fin 0).
Proof.
  assert (Hp : (1 <= 3)%nat) by lia.
  split.
  - apply (proj1 (calculateRSI_one_way [10; 10; 12; 15]%Q 3 Hp
                    ltac:(simpl; lia))).
    intros i Hi.
    destruct i as [|[|[|[|i]]]]; try lia; cbn; unfold Qle; cbn; lia.
  - apply (proj2 (calculateRSI_one_way [15; 12; 12; 10]%Q 3 Hp
                    ltac:(simpl; lia))).
    intros i Hi.
    destruct i as [|[|[|[|i]]]]; try lia; cbn; unfold Qle; cbn; lia.
Defined.

Lemma fold_left_ext_in {A B : Type} (f g : A -> B -> A) (l : list B) :
  (forall b, In b l -> forall a, f a b = g a b) ->
  forall a, fold_left f l a = fold_left g l a.
Proof.
  induction l as [|b l IH]; intros H a; [reflexivity|].
  cbn [fold_left]. rewrite (H b) by (now left).
  apply IH. intros b' Hb'. apply H. now right.
Qed.

(** X3. [calculateRSI] reads the first [period + 1] closes only: closes
    that follow them do not change the result. *)
Theorem calculateRSI_reads_prefix (closes later : list num) (period : nat) :
  (period + 1 <= List.length closes)%nat ->
  calculateRSI (closes ++ later) period = calculateRSI closes period.
Proof.
  intros Hn. unfold calculateRSI.
  destruct (Nat.ltb_spec (List.length (closes ++ later)) (period + 1))
    as [H|_].
  { rewrite length_app in H. lia. }
  destruct (Nat.ltb_spec (List.length closes) (period + 1)) as [H|_]; [lia|].
  rewrite (fold_left_ext_in (rsi_step (closes ++ later)) (rsi_step closes));
    [reflexivity|].
  intros i Hi [g l]. apply in_seq in Hi. unfold rsi_step, at_index.
  rewrite !app_nth1 by lia. reflexivity.
Qed.

Lemma calculateRSI_reads_prefix_witness :
  calculateRSI ([Fin 10; Fin 12; Fin 11; Fin 15] ++ [Fin 1; Fin 99]) 3
  = calculateRSI [Fin 10; Fin 12; Fin 11; Fin 15] 3.
Proof. apply calculateRSI_reads_prefix. simpl. lia. Defined.

(* ================================================================= *)
(** ** The terms of the momentum score *)

Section MomentumTerms.

Lemma rsi_contribution_bounds (r : Q) :
  0 <= r <= 100 ->
  exists c, rsi_contribution (Fin r) = Fin c /\ -45 <= c <= 45.
Proof.
  intros Hr. unfold rsi_contribution. num_cmp; cbn [nsub nmul nadd];
    (eexists; split; [reflexivity|]); rewrite !Qred_correct; lra.
Qed.

(** X6. For an RSI between 0 and 100 the RSI term of the momentum score
    lies between -45 and 45 and reaches both ends (at 100 and at 0); the
    MACD and trend terms are [NaN] or lie within [-20, 20] and
    [-10, 10]. *)
Theorem momentum_term_ranges :
  (forall r : Q, 0 <= r <= 100 ->
     exists c, rsi_contribution (Fin r) = Fin c /\ -45 <= c <= 45) /\
  rsi_contribution (Fin 100) = Fin (-45) /\
  rsi_contribution (Fin 0) = Fin 45 /\
  (forall h : num,
     macd_contribution h = NaN \/
     exists c, macd_contribution h = Fin c /\ -20 <= c <= 20) /\
  (forall t : num,
     trend_contribution t = NaN \/
     exists c, trend_contribution t = Fin c /\ -10 <= c <= 10).
Proof.
  split; [exact rsi_contribution_bounds|].
  split; [reflexivity|]. split; [reflexivity|]. split.
  - intros h. apply clamp_shape. lra.
  - intros t. apply clamp_shape. lra.
Qed.

End MomentumTerms.

Lemma momentum_term_ranges_witness :
  exists c, rsi_contribution (Fin 75) = Fin c /\ -45 <= c <= 45.
Proof.
  apply (proj1 momentum_term_ranges). split; unfold Qle; cbn; lia.
Defined.

(* ================================================================= *)
(** ** More on confidence and direction *)

Section NaNScores.

Lemma nadd_nan_r (x : num) : x + NaN = NaN.
Proof. destruct x; reflexivity. Qed.

Lemma nmul_nan_l (x : num) : NaN * x = NaN.
Proof. destruct x; reflexivity. Qed.

Lemma confidence_of_nan (orderFlowScore momentumScore sentimentScore : num) :
  orderFlowScore = NaN \/ momentumScore = NaN \/ sentimentScore = NaN ->
  confidence_of orderFlowScore momentumScore sentimentScore = NaN.
Proof.
  intros H. unfold confidence_of.
  assert (Hc : confluence orderFlowScore momentumScore sentimentScore = None).
  { unfold confluence, allBullish, allBearish.
    destruct H as [-> | [-> | ->]]; cbn [ngt nlt ncompare];
      rewrite ?Bool.andb_false_r; reflexivity. }
  assert (Hr : rawScore orderFlowScore momentumScore sentimentScore = NaN).
  { unfold rawScore.
    destruct H as [-> | [-> | ->]]; rewrite nmul_nan_l, ?nadd_nan_r;
      reflexivity. }
  rewrite Hc, Hr. reflexivity.
Qed.

(** X7. A score that is [NaN] makes the confidence [NaN], and the signal
    is then FLAT, not tradeable and without confidence, under every tier.
    An order book whose [imbalance] is [NaN] (no volume on either side)
    has this effect whatever the candles. *)
Theorem nan_score_gives_flat :
  (forall orderFlowScore momentumScore sentimentScore,
      orderFlowScore = NaN \/ momentumScore = NaN \/ sentimentScore = NaN ->
      confidence_of orderFlowScore momentumScore sentimentScore = NaN) /\
  (forall sym tf aggr klines orderBook now random,
      imbalance orderBook = NaN ->
      let s := generateSignal sym tf aggr klines orderBook now random in
      sig_direction s = FLAT /\ tradeable s = false /\
      confidence s = None /\ conflict_pass s = false).
Proof.
  split; [exact confidence_of_nan|].
  intros sym tf aggr klines orderBook now random Hi s. subst s.
  unfold generateSignal.
  cbn [sig_direction tradeable confidence conflict_pass].
  assert (Ho : calculateOrderFlowScore orderBook = NaN).
  { unfold calculateOrderFlowScore. now rewrite Hi. }
  rewrite Ho, confidence_of_nan by (now left).
  destruct aggr; repeat split; reflexivity.
Qed.

End NaNScores.

Lemma nan_score_gives_flat_witness :
  sig_direction
    (generateSignal "BTC" TF_1h moderate [] (mkOrderBook 0 0 NaN) 0 0)
  = FLAT.
Proof.
  apply (proj2 nan_score_gives_flat
           "BTC"%string TF_1h moderate [] (mkOrderBook 0 0 NaN) 0%Z (Fin 0)).
  reflexivity.
Defined.

Section ConfidenceOrder.

Lemma confidence_of_fin (a b c : Q) :
  exists p, confidence_of a b c = Fin p /\ p == spec_confidence a b c.
Proof.
  apply num_eq_fin_inv.
  unfold confidence_of, spec_confidence.
  pose proof (confluence_spec a b c) as Hc.
  destruct (confluence a b c) as [boost|].
  - subst boost. unfold rawScore. cbn [nadd nmul].
    rewrite clamp_fin by lra. cbn [num_eq].
    apply spec_clamp_Proper; try reflexivity.
    rewrite !Qred_correct. ring.
  - rewrite Hc. unfold rawScore. cbn [nadd nmul].
    rewrite clamp_fin by lra. cbn [num_eq].
    apply spec_clamp_Proper; try reflexivity.
    rewrite !Qred_correct. ring.
Qed.

Lemma spec_confluence_mono (a b c a' b' c' : Q) :
  a <= a' -> b <= b' -> c <= c' ->
  spec_confluence a b c <= spec_confluence a' b' c'.
Proof.
  intros Ha Hb Hc. unfold spec_confluence.
  repeat match goal with
         | |- context [Qlt_le_dec ?x ?y] => destruct (Qlt_le_dec x y)
         end; lra.
Qed.

Lemma spec_confidence_mono (a b c a' b' c' : Q) :
  a <= a' -> b <= b' -> c <= c' ->
  spec_confidence a b c <= spec_confidence a' b' c'.
Proof.
  intros Ha Hb Hc. unfold spec_confidence.
  apply spec_clamp_mono; [lra|].
  pose proof (spec_confluence_mono a b c a' b' c' Ha Hb Hc). lra.
Qed.

Lemma decide_up_mono (aggr : aggressiveness) (p q : Q) :
  p <= q ->
  d_direction (decide (THRESHOLDS aggr) p) = UP ->
  d_direction (decide (THRESHOLDS aggr) q) = UP.
Proof.
  intros Hpq.
  destruct aggr;
    [ destruct (decide_fin (THRESHOLDS conservative) p 70 30) as (Hp & _);
      [reflexivity..|lra|];
      destruct (decide_fin (THRESHOLDS conservative) q 70 30) as (Hq & _);
      [reflexivity..|lra|]
    | destruct (decide_fin (THRESHOLDS moderate) p 62 38) as (Hp & _);
      [reflexivity..|lra|];
      destruct (decide_fin (THRESHOLDS moderate) q 62 38) as (Hq & _);
      [reflexivity..|lra|]
    | destruct (decide_fin (THRESHOLDS aggressive) p 60 40) as (Hp & _);
      [reflexivity..|lra|];
      destruct (decide_fin (THRESHOLDS aggressive) q 60 40) as (Hq & _);
      [reflexivity..|lra|] ];
    intros H; apply Hq; apply Hp in H; lra.
Qed.

Lemma decide_down_mono (aggr : aggressiveness) (p q : Q) :
  p <= q ->
  d_direction (decide (THRESHOLDS aggr) q) = DOWN ->
  d_direction (decide (THRESHOLDS aggr) p) = DOWN.
Proof.
  intros Hpq.
  destruct aggr;
    [ destruct (decide_fin (THRESHOLDS conservative) p 70 30) as (_ & Hp & _);
      [reflexivity..|lra|];
      destruct (decide_fin (THRESHOLDS conservative) q 70 30) as (_ & Hq & _);
      [reflexivity..|lra|]
    | destruct (decide_fin (THRESHOLDS moderate) p 62 38) as (_ & Hp & _);
      [reflexivity..|lra|];
      destruct (decide_fin (THRESHOLDS moderate) q 62 38) as (_ & Hq & _);
      [reflexivity..|lra|]
    | destruct (decide_fin (THRESHOLDS aggressive) p 60 40) as (_ & Hp & _);
      [reflexivity..|lra|];
      destruct (decide_fin (THRESHOLDS aggressive) q 60 40) as (_ & Hq & _);
      [reflexivity..|lra|] ];
    intros H; apply Hp; apply Hq in H; lra.
Qed.

(** X8. Raising any of the three scores never lowers the confidence.
    Hence, under any tier, a signal that is UP stays UP when scores rise,
    and a signal that is DOWN stays DOWN when scores fall. *)
Theorem confidence_monotone (a b c a' b' c' : Q) :
  a <= a' -> b <= b' -> c <= c' ->
  (confidence_of a b c <=? confidence_of a' b' c') = true /\
  (forall aggr,
      d_direction (decide (THRESHOLDS aggr) (confidence_of a b c)) = UP ->
      d_direction (decide (THRESHOLDS aggr) (confidence_of a' b' c')) = UP) /\
  (forall aggr,
      d_direction (decide (THRESHOLDS aggr) (confidence_of a' b' c')) = DOWN ->
      d_direction (decide (THRESHOLDS aggr) (confidence_of a b c)) = DOWN).
Proof.
  intros Ha Hb Hc.
  destruct (confidence_of_fin a b c) as (p & -> & Hp).
  destruct (confidence_of_fin a' b' c') as (q & -> & Hq).
  assert (Hpq : p <= q).
  { rewrite Hp, Hq. now apply spec_confidence_mono. }
  split; [now apply nle_fin|]. split; intros aggr.
  - now apply decide_up_mono.
  - now apply decide_down_mono.
Qed.

End ConfidenceOrder.

Lemma confidence_monotone_witness :
  (confidence_of 12 11 8 <=? confidence_of 18 11 15) = true.
Proof.
  apply (confidence_monotone 12 11 8 18 11 15);
    unfold Qle; cbn; lia.
Defined.

Section DisplayedConfidence.

Lemma round_at_least (q : Q) (u : Z) :
  inject_Z u <= q -> (u <= Qfloor (q + (1 # 2)))%Z.
Proof.
  intros H. rewrite <- (Qfloor_Z u). apply Qfloor_resp_le. lra.
Qed.

Lemma round_at_most (q : Q) (d : Z) :
  q <= inject_Z d -> (Qfloor (q + (1 # 2)) <= d)%Z.
Proof.
  intros H.
  assert (Hlt : inject_Z (Qfloor (q + (1 # 2))) < inject_Z (d + 1)).
  { apply Qle_lt_trans with (q + (1 # 2))%Q; [apply Qfloor_le|].
    rewrite inject_Z_plus. change (inject_Z 1) with 1%Q. lra. }
  rewrite <- Zlt_Qlt in Hlt. lia.
Qed.

(** The thresholds are whole numbers. *)
Lemma thresholds_whole (aggr : aggressiveness) :
  exists u d : Z,
    up (THRESHOLDS aggr) = Fin (inject_Z u) /\
    down (THRESHOLDS aggr) = Fin (inject_Z d).
Proof.
  destruct aggr;
    [exists 70%Z, 30%Z|exists 62%Z, 38%Z|exists 60%Z, 40%Z];
    split; reflexivity.
Qed.

Variables (sym : string) (tf : timeframe) (aggr : aggressiveness).
Variables (klines : list kline) (orderBook : order_book).
Variables (now : Z) (random : num).

(** X9. The rounded confidence written in the signal agrees with the
    direction: when the direction is UP it is at least the tier's [up]
    threshold, when DOWN at most the [down] threshold. *)
Theorem displayed_confidence_meets_threshold :
  let s := generateSignal sym tf aggr klines orderBook now random in
  (sig_direction s = UP ->
   exists c, confidence s = Some c /\ (c >=? up (THRESHOLDS aggr)) = true) /\
  (sig_direction s = DOWN ->
   exists c, confidence s = Some c /\ (c <=? down (THRESHOLDS aggr)) = true).
Proof.
  cbv zeta. unfold generateSignal.
  cbn [sig_direction confidence].
  pose proof (confidence_of_shape (calculateOrderFlowScore orderBook)
                (calculateMomentumScore klines)
                (calculateSentimentScore klines)) as Hshape.
  revert Hshape.
  generalize (confidence_of (calculateOrderFlowScore orderBook)
                (calculateMomentumScore klines)
                (calculateSentimentScore klines)).
  destruct (thresholds_whole aggr) as (u & d & Hu & Hd).
  intros c0 [Hnan|(q & Hq & Hr)]; subst c0; unfold decide; rewrite Hu, Hd.
  - cbn. split; intros H; discriminate H.
  - destruct (Fin q >=? Fin (inject_Z u)) eqn:E1;
      [apply nge_fin in E1|
       destruct (Fin q <=? Fin (inject_Z d)) eqn:E2;
       [apply nle_fin in E2|]];
      cbn [d_direction d_tradeable d_confidence option_map Math_round];
      split; intros H; try discriminate H;
      eexists; (split; [reflexivity|]).
    + apply nge_fin. rewrite <- Zle_Qle. now apply round_at_least.
    + apply nle_fin. rewrite <- Zle_Qle. now apply round_at_most.
Qed.

End DisplayedConfidence.

Lemma displayed_confidence_meets_threshold_witness :
  exists c,
    confidence
      (generateSignal "BTC" TF_15m aggressive [] (mkOrderBook 12 0 1) 0 0)
    = Some c /\ (c >=? up (THRESHOLDS aggressive)) = true.
Proof.
  apply (proj1 (displayed_confidence_meets_threshold
                  "BTC" TF_15m aggressive [] (mkOrderBook 12 0 1) 0%Z
                  (Fin 0))).
  reflexivity.
Defined.

Section Rationale.

Lemma rationales_length (tf : timeframe) (d : direction)
    (scores : rationale_scores) :
  List.length (rationales tf d scores) = 3%nat.
Proof. destruct tf, d; reflexivity. Qed.

(** X11. For every draw of [Math.random()] (a number from 0 inclusive to 1
    exclusive), [generateRationale] returns one of the three phrases of
    the timeframe and direction: it is never [undefined]. *)
Theorem generateRationale_defined (d : direction) (tf : timeframe)
    (scores : rationale_scores) (r : Q) :
  0 <= r < 1 ->
  exists phrase,
    generateRationale d tf scores (Fin r) = Some phrase /\
    In phrase (rationales tf d scores).
Proof.
  intros [H0 H1]. unfold generateRationale. cbv zeta.
  rewrite rationales_length. unfold of_nat. cbn [nmul Math_floor].
  set (i := Qfloor (Qred (r * inject_Z (Z.of_nat 3))%Q)).
  assert (Hi : (0 <= i < 3)%Z).
  { unfold i. rewrite (Qfloor_comp _ _ (Qred_correct _)).
    change (inject_Z (Z.of_nat 3)) with 3%Q. split.
    - change 0%Z with (Qfloor 0). apply Qfloor_resp_le. lra.
    - apply Z.lt_le_trans with (Qfloor (r * 3)%Q + 1)%Z; [lia|].
      assert (Hlt : inject_Z (Qfloor (r * 3)%Q) < inject_Z 3).
      { apply Qle_lt_trans with (r * 3)%Q; [apply Qfloor_le|].
        change (inject_Z 3) with 3%Q. lra. }
      rewrite <- Zlt_Qlt in Hlt. lia. }
  assert (Hle : Qle_bool 0 (inject_Z i) = true).
  { apply Qle_bool_iff. change 0%Q with (inject_Z 0).
    rewrite <- Zle_Qle. lia. }
  rewrite Hle, Qfloor_Z.
  destruct (nth_error (rationales tf d scores) (Z.to_nat i)) as [phrase|]
    eqn:E.
  - exists phrase. split; [reflexivity|]. eapply nth_error_In; eauto.
  - apply nth_error_None in E. rewrite rationales_length in E. lia.
Qed.

End Rationale.

Lemma generateRationale_defined_witness :
  exists phrase,
    generateRationale UP TF_1h
      {| s_orderFlowScore := 18; s_momentumScore := 12;
         s_sentimentScore := 8; s_rsi := 55 |} (Fin (2 # 3))
    = Some phrase /\
    In phrase
      (rationales TF_1h UP
         {| s_orderFlowScore := 18; s_momentumScore := 12;
            s_sentimentScore := 8; s_rsi := 55 |}).
Proof.
  apply generateRationale_defined. split; [unfold Qle|unfold Qlt]; cbn; lia.
Defined.

(* ================================================================= *)
(** ** The generation loops and the table *)

Section Table.

Lemma FOP_snoc {A : Type} (R : A -> A -> Prop) (l : list A) (y : A) :
  ForallOrdPairs R l -> Forall (fun x => R x y) l ->
  ForallOrdPairs R (l ++ [y]).
Proof.
  induction 1 as [|a l Ha _ IH]; intros Hall; cbn [app].
  - repeat constructor.
  - inversion Hall as [|? ? Hay Hrest]; subst. constructor.
    + apply Forall_app. split; [exact Ha|]. now constructor.
    + now apply IH.
Qed.

Lemma generated_market_id sym tf aggr klines orderBook now random :
  market_id (generateSignal sym tf aggr klines orderBook now random)
  = (toLowerCase sym ++ "-usd")%string.
Proof. reflexivity. Qed.

Lemma HOLD_PERIODS_pos (tf : timeframe) : (0 < HOLD_PERIODS tf * 60 * 1000)%Z.
Proof. destruct tf; reflexivity. Qed.

(** A row that does not belong to the key is not seen by the query. *)
Lemma latest_signal_other (db : signals_table) (s : signal_record)
    (marketId : string) (tf : timeframe) :
  market_id s <> marketId \/ sig_timeframe s <> tf ->
  latest_signal (db ++ [s]) marketId tf = latest_signal db marketId tf.
Proof.
  intros H. unfold latest_signal, eq_timeframe, eq_market_id.
  rewrite !filter_app. cbn [filter].
  destruct (String.eqb_spec (market_id s) marketId) as [Hm|Hm].
  - cbn [filter].
    destruct (timeframe_eqb (sig_timeframe s) tf) eqn:Ht.
    + apply timeframe_eqb_eq in Ht. destruct H; contradiction.
    + now rewrite app_nil_r.
  - cbn [filter]. now rewrite !app_nil_r.
Qed.



Lemma FOP_app_l {A : Type} (R : A -> A -> Prop) (l l' : list A) :
  ForallOrdPairs R (l ++ l') -> ForallOrdPairs R l.
Proof.
  induction l as [|x l IH]; cbn [app]; intros H; [constructor|].
  inversion H as [|? ? Hx Hrest]; subst. constructor.
  - apply Forall_app in Hx. tauto.
  - now apply IH.
Qed.

Lemma FOP_snoc_inv {A : Type} (R : A -> A -> Prop) (l : list A) (y : A) :
  ForallOrdPairs R (l ++ [y]) -> Forall (fun x => R x y) l.
Proof.
  induction l as [|x l IH]; cbn [app]; intros H; [constructor|].
  inversion H as [|? ? Hx Hrest]; subst. constructor.
  - apply Forall_app in Hx. destruct Hx as (_ & Hy).
    now inversion Hy.
  - now apply IH.
Qed.

Lemma well_held_app_l (db more : signals_table) :
  well_held (db ++ more) -> well_held db.
Proof.
  intros (Hwf & Hfop). split.
  - apply Forall_app in Hwf. tauto.
  - now apply FOP_app_l in Hfop.
Qed.

(** When the check, its select having succeeded, asks for a new signal at
    time [c], the hold of every stored row of the key has ended before
    [c]. *)
Lemma due_all_expired (db : signals_table) (marketId : string)
    (tf : timeframe) (c : Z) :
  well_held db ->
  needsRegeneration db marketId tf true c = true ->
  forall r, In r db -> market_id r = marketId -> sig_timeframe r = tf ->
            (hold_until r < c)%Z.
Proof.
  intros (Hwf & Hfop) Hdue r Hin Hm Ht.
  unfold needsRegeneration, select_data in Hdue.
  pose proof (latest_signal_spec db marketId tf) as Hspec.
  destruct (latest_signal db marketId tf) as [L|].
  - destruct Hspec as ((HinL & HmL & HtL) & Hmax).
    rewrite Z.gtb_ltb in Hdue. apply Z.ltb_lt in Hdue.
    rewrite Forall_forall in Hwf.
    pose proof (Hwf L HinL) as HwfL. pose proof (Hwf r Hin) as Hwfr.
    assert (Hle : (generated_at r <= generated_at L)%Z)
      by (apply Hmax; auto).
    destruct (ForallOrdPairs_In Hfop r L Hin HinL) as [->|[H|H]].
    + exact Hdue.
    + assert (hold_until r < generated_at L)%Z
        by (apply H; split; congruence).
      lia.
    + assert (hold_until L < generated_at r)%Z
        by (apply H; split; congruence).
      lia.
  - exfalso. apply (Hspec r). auto.
Qed.

Variables (tf : timeframe) (db : signals_table) (sym : string) (a : attempt).

Let marketId : string := (toLowerCase sym ++ "-usd")%string.

(** The body of the loop leaves the table as it is or appends one signal
    of the symbol and timeframe, generated at the time of the attempt. *)
Lemma generateSignals_body_cases :
  generateSignals_body tf db sym a = db \/
  exists s,
    generateSignals_body tf db sym a = db ++ [s] /\
    needsRegeneration db marketId tf (select_ok a) (checked_at a) = true /\
    market_id s = marketId /\ sig_timeframe s = tf /\
    generated_at s = generated_now a /\
    hold_until s = (generated_now a + HOLD_PERIODS tf * 60 * 1000)%Z.
Proof.
  unfold generateSignals_body. cbv zeta. fold marketId.
  destruct (needsRegeneration db marketId tf (select_ok a) (checked_at a))
    eqn:Hdue; cbn [negb]; [|now left].
  destruct (fetched a) as [[klines orderBook]|]; [|now left].
  destruct (insert_ok a); [|now left].
  right. eexists. split; [reflexivity|]. repeat split.
Qed.

(** The same among other passes: the rows they have landed are in the
    table in either case. *)
Lemma generateSignals_body_among_cases (landed : signals_table) :
  generateSignals_body_among tf db landed sym a = db ++ landed \/
  exists s,
    generateSignals_body_among tf db landed sym a = (db ++ landed) ++ [s] /\
    needsRegeneration db marketId tf (select_ok a) (checked_at a) = true /\
    market_id s = marketId /\ sig_timeframe s = tf /\
    generated_at s = generated_now a /\
    hold_until s = (generated_now a + HOLD_PERIODS tf * 60 * 1000)%Z.
Proof.
  unfold generateSignals_body_among. cbv zeta. fold marketId.
  destruct (needsRegeneration db marketId tf (select_ok a) (checked_at a))
    eqn:Hdue; cbn [negb]; [|now left].
  destruct (fetched a) as [[klines orderBook]|]; [|now left].
  destruct (insert_ok a); [|now left].
  right. eexists. split; [reflexivity|]. repeat split.
Qed.

(** A pass that runs alone is the case where nothing lands in between. *)
Lemma generateSignals_body_alone :
  generateSignals_body_among tf db [] sym a = generateSignals_body tf db sym a.
Proof.
  unfold generateSignals_body_among, generateSignals_body. cbv zeta.
  rewrite !app_nil_r. reflexivity.
Qed.

End Table.

Section Loops.

Variable tf : timeframe.

(** What one turn of the loop may add. *)
Lemma generateSignals_body_added (db : signals_table) (sym : string)
    (a : attempt) :
  exists added,
    generateSignals_body tf db sym a = db ++ added /\
    (List.length added <= 1)%nat /\
    Forall (fun r => sig_timeframe r = tf /\
                     market_id r = (toLowerCase sym ++ "-usd")%string) added.
Proof.
  destruct (generateSignals_body_cases tf db sym a)
    as [->|(s & -> & _ & Hm & Ht & _)].
  - exists []. rewrite app_nil_r. repeat split; [cbn; lia|constructor].
  - exists [s]. repeat split; [cbn; lia|]. repeat constructor; assumption.
Qed.

(** X12. A pass of [generateSignals] never removes or alters a stored row:
    the table after the pass is the table before it followed by at most
    three new rows, each of the timeframe of the pass and of one of the
    three markets. *)
Theorem generateSignals_appends (env : string -> attempt)
    (db : signals_table) :
  exists added,
    generateSignals tf env db = db ++ added /\
    (List.length added <= 3)%nat /\
    Forall (fun r => sig_timeframe r = tf /\
                     In (market_id r) ["btc-usd"; "eth-usd"; "sol-usd"]%string)
      added.
Proof.
  unfold generateSignals, MARKETS. cbn [fold_left].
  destruct (generateSignals_body_added db "BTC" (env "BTC"%string))
    as (a1 & -> & L1 & F1).
  destruct (generateSignals_body_added (db ++ a1) "ETH" (env "ETH"%string))
    as (a2 & -> & L2 & F2).
  destruct (generateSignals_body_added ((db ++ a1) ++ a2) "SOL"
              (env "SOL"%string)) as (a3 & -> & L3 & F3).
  exists (a1 ++ a2 ++ a3). split; [now rewrite !app_assoc|]. split.
  - rewrite !length_app. lia.
  - rewrite !Forall_app. repeat split.
    + apply Forall_impl with (2 := F1). intros r (Ht & ->).
      split; [exact Ht|]. cbn. auto.
    + apply Forall_impl with (2 := F2). intros r (Ht & ->).
      split; [exact Ht|]. cbn. auto.
    + apply Forall_impl with (2 := F3). intros r (Ht & ->).
      split; [exact Ht|]. cbn. auto.
Qed.

End Loops.

Section AmongPasses.

Variables (tf : timeframe) (db landed : signals_table) (sym : string).
Variable a : attempt.

Let marketId : string := (toLowerCase sym ++ "-usd")%string.

(** The table the insert lands on keeps its hold windows apart, and no
    other pass has stored a signal of the key since the check. *)
Hypothesis held : well_held (db ++ landed).
Hypothesis quiet :
  Forall (fun r => market_id r <> marketId \/ sig_timeframe r <> tf)
    landed.

(** The select of the hold check succeeds, and the clock does not run
    backwards between the check and the generation. *)
Hypothesis selected : select_ok a = true.
Hypothesis clock : (checked_at a <= generated_now a)%Z.

Lemma among_well_held :
  well_held (generateSignals_body_among tf db landed sym a).
Proof.
  destruct (generateSignals_body_among_cases tf db sym a landed)
    as [->|(s & -> & Hdue & Hm & Ht & Hg & Hh)]; [exact held|].
  rewrite selected in Hdue. fold marketId in Hdue, Hm.
  pose proof (due_all_expired db marketId tf _
                (well_held_app_l db landed held) Hdue) as Hexp.
  destruct held as (Hwf & Hfop). split.
  - apply Forall_app. split; [exact Hwf|]. constructor; [|constructor].
    rewrite Hg, Hh. pose proof (HOLD_PERIODS_pos tf). lia.
  - apply FOP_snoc; [exact Hfop|].
    apply Forall_app. split.
    + apply Forall_forall. intros r Hin (Hk1 & Hk2).
      assert (hold_until r < checked_at a)%Z
        by (apply Hexp; [exact Hin|congruence|congruence]).
      lia.
    + apply Forall_impl with (2 := quiet).
      intros r Hr (Hk1 & Hk2). exfalso.
      destruct Hr as [Hr|Hr]; apply Hr; congruence.
Qed.

(** X13. Hold windows of one market and timeframe stay apart over a turn
    of the loop of [generateSignals]: if they are apart in the table the
    insert lands on, the select of the hold check succeeds, no other pass
    has stored a signal of the same market and timeframe between the check
    and the insert, and the clock does not run backwards between the check
    and the generation, then they are apart after the turn.  For a pass
    that runs alone, only the select and the clock are asked for. *)
Theorem hold_windows_stay_apart :
  well_held (generateSignals_body_among tf db landed sym a) /\
  (forall r1 r2,
      In r1 (generateSignals_body_among tf db landed sym a) ->
      In r2 (generateSignals_body_among tf db landed sym a) ->
      same_key r1 r2 ->
      r1 = r2 \/
      (hold_until r1 < generated_at r2)%Z \/
      (hold_until r2 < generated_at r1)%Z) /\
  (landed = [] -> well_held (generateSignals_body tf db sym a)).
Proof.
  pose proof among_well_held as Hafter.
  split; [exact Hafter|]. split.
  - intros r1 r2 H1 H2 Hk. destruct Hafter as (_ & Hfop).
    destruct (ForallOrdPairs_In Hfop r1 r2 H1 H2) as [->|[H|H]].
    + now left.
    + right. left. now apply H.
    + right. right. apply H. destruct Hk. split; congruence.
  - intros E. rewrite <- generateSignals_body_alone.
    rewrite E in Hafter. exact Hafter.
Qed.

Variables (klines : list kline) (orderBook : order_book).

(** The turn finds a signal due, fetches and inserts. *)
Hypothesis due :
  needsRegeneration db marketId tf (select_ok a) (checked_at a) = true.
Hypothesis fetch_ok : fetched a = Some (klines, orderBook).
Hypothesis inserted : insert_ok a = true.

Let signal : signal_record :=
  generateSignal sym tf aggressive klines orderBook
    (generated_now a) (random_draw a).




End AmongPasses.

Lemma hold_windows_stay_apart_witness :
  let old :=
    generateSignal "BTC" TF_15m aggressive [] (mkOrderBook 12 0 1) 1000 0 in
  let eth :=
    generateSignal "ETH" TF_15m aggressive [] (mkOrderBook 12 0 1) 350000 0 in
  let a :=
    {| checked_at := 400000; select_ok := true;
       fetched := Some ([], mkOrderBook 12 0 1);
       generated_now := 400002; random_draw := Fin 0; insert_ok := true |} in
  List.length (generateSignals_body_among TF_15m [old] [eth] "BTC" a) = 3%nat /\
  well_held (generateSignals_body_among TF_15m [old] [eth] "BTC" a).
Proof.
  intros old eth a. split; [reflexivity|].
  apply (hold_windows_stay_apart TF_15m [old] [eth] "BTC" a).
  - split.
    + repeat constructor; cbn; lia.
    + constructor;
        [constructor; [intros (H & _); discriminate H|constructor]
        |repeat constructor].
  - constructor; [left; discriminate|constructor].
  - reflexivity.
  - cbn. lia.
Defined.


Section RacingPasses.

Variables (tf : timeframe) (sym : string) (a : attempt).
Variables (klines : list kline) (orderBook : order_book).

Let marketId : string := (toLowerCase sym ++ "-usd")%string.

Hypothesis fetch_ok : fetched a = Some (klines, orderBook).
Hypothesis inserted : insert_ok a = true.

Let signal : signal_record :=
  generateSignal sym tf aggressive klines orderBook
    (generated_now a) (random_draw a).

(** A signal appended after a row of its key that is still on hold breaks
    the separation of the hold windows. *)
Lemma overlap_not_well_held (rows : signals_table) (r : signal_record) :
  In r rows ->
  market_id r = marketId -> sig_timeframe r = tf ->
  (generated_now a <= hold_until r)%Z ->
  ~ well_held (rows ++ [signal]).
Proof.
  intros Hin Hm Ht Hhold (_ & Hfop).
  apply FOP_snoc_inv in Hfop. rewrite Forall_forall in Hfop.
  assert (hold_until r < generated_at signal)%Z.
  { apply (Hfop r Hin). split; [rewrite Hm|rewrite Ht]; reflexivity. }
  cbn [signal generateSignal generated_at] in H. lia.
Qed.

(** X25. The hold check protects a hold period only when its select
    succeeds and nothing lands between the check and the insert.  A turn
    whose select fails inserts a signal although a stored signal of the
    key is still on hold; and a turn that found the key due inserts its
    signal although another pass has stored one of the key since the
    check (the cron callbacks start a pass without awaiting the one
    before).  In both cases two hold windows of the key overlap. *)
Theorem hold_windows_can_overlap (db landed : signals_table)
    (r : signal_record) :
  market_id r = marketId -> sig_timeframe r = tf ->
  (generated_now a <= hold_until r)%Z ->
  (In r db -> select_ok a = false ->
   generateSignals_body tf db sym a = db ++ [signal] /\
   ~ well_held (generateSignals_body tf db sym a)) /\
  (In r landed ->
   needsRegeneration db marketId tf (select_ok a) (checked_at a) = true ->
   generateSignals_body_among tf db landed sym a
   = (db ++ landed) ++ [signal] /\
   ~ well_held (generateSignals_body_among tf db landed sym a)).
Proof.
  intros Hm Ht Hhold. split.
  - intros Hin Hfail.
    assert (E : generateSignals_body tf db sym a = db ++ [signal]).
    { unfold generateSignals_body, needsRegeneration, select_data.
      cbv zeta. now rewrite Hfail, fetch_ok, inserted. }
    split; [exact E|]. rewrite E.
    now apply (overlap_not_well_held db r).
  - intros Hin Hdue.
    assert (E : generateSignals_body_among tf db landed sym a
                = (db ++ landed) ++ [signal]).
    { unfold generateSignals_body_among. cbv zeta. fold marketId.
      now rewrite Hdue, fetch_ok, inserted. }
    split; [exact E|]. rewrite E.
    apply (overlap_not_well_held (db ++ landed) r); try assumption.
    apply in_app_iff. now right.
Qed.

End RacingPasses.

Lemma hold_windows_can_overlap_witness :
  let a :=
    {| checked_at := 1000; select_ok := true;
       fetched := Some ([], mkOrderBook 12 0 1);
       generated_now := 1002; random_draw := Fin 0; insert_ok := true |} in
  let other :=
    generateSignal "BTC" TF_15m aggressive [] (mkOrderBook 12 0 1) 1001 0 in
  well_held [other] /\
  ~ well_held (generateSignals_body_among TF_15m [] [other] "BTC" a).
Proof.
  intros a other. split.
  - split; [constructor; [cbn; lia|constructor]|repeat constructor].
  - apply (proj2 (hold_windows_can_overlap TF_15m "BTC" a []
                    (mkOrderBook 12 0 1) eq_refl eq_refl [] [other] other
                    eq_refl eq_refl ltac:(cbn; lia))).
    + now left.
    + reflexivity.
Defined.

Section OtherKeys.

Variables (tf : timeframe) (db : signals_table) (sym : string).

Let marketId : string := (toLowerCase sym ++ "-usd")%string.

(** X15. Storing a signal for one market and timeframe changes nothing
    for the others: the row read by the hold check of any other key, and
    hence its answer at every time, are as before the pass. *)
Theorem other_keys_unaffected (a0 : attempt) (m : string) (tf' : timeframe) :
  m <> marketId \/ tf' <> tf ->
  latest_signal (generateSignals_body tf db sym a0) m tf'
  = latest_signal db m tf' /\
  (forall ok t,
      needsRegeneration (generateSignals_body tf db sym a0) m tf' ok t
      = needsRegeneration db m tf' ok t).
Proof.
  intros Hother.
  assert (H : latest_signal (generateSignals_body tf db sym a0) m tf'
              = latest_signal db m tf').
  { destruct (generateSignals_body_cases tf db sym a0)
      as [->|(s & -> & _ & Hm & Ht & _)]; [reflexivity|].
    apply latest_signal_other. fold marketId in Hm.
    destruct Hother as [Ho|Ho]; [left|right]; congruence. }
  split; [exact H|].
  intros ok t. unfold needsRegeneration, select_data. now rewrite H.
Qed.

End OtherKeys.

Lemma other_keys_unaffected_witness :
  let a :=
    {| checked_at := 1000; select_ok := true;
       fetched := Some ([], mkOrderBook 12 0 1);
       generated_now := 1002; random_draw := Fin 0; insert_ok := true |} in
  latest_signal (generateSignals_body TF_15m [] "BTC" a) "eth-usd" TF_15m
  = latest_signal [] "eth-usd" TF_15m.
Proof.
  intros a.
  apply (proj1 (other_keys_unaffected TF_15m [] "BTC" a
                  "eth-usd"%string TF_15m ltac:(left; discriminate))).
Defined.

Section CommandLine.

Variable tf : timeframe.

Lemma generateAndPushSignal_cases (db : signals_table) (sym : string)
    (a : attempt) :
  fst (generateAndPushSignal db sym tf a) = generateSignals_body tf db sym a /\
  match snd (generateAndPushSignal db sym tf a) with
  | Some s => generateSignals_body tf db sym a = db ++ [s]
  | None => generateSignals_body tf db sym a = db
  end.
Proof.
  unfold generateAndPushSignal, generateSignals_body, shouldGenerateSignal,
    needsRegeneration. cbv zeta.
  destruct (select_data db (toLowerCase sym ++ "-usd") tf (select_ok a))
    as [s|];
    [destruct (checked_at a >? hold_until s)%Z|]; cbn [negb fst snd];
    try (split; reflexivity);
    destruct (fetched a) as [[klines orderBook]|]; cbn [fst snd];
    try (split; reflexivity);
    destruct (insert_ok a); cbn [fst snd]; split; reflexivity.
Qed.

(** X16. The command-line pass [generateSignalsForTimeframe] and the
    server's [generateSignals] change the table in the same way, and the
    list the former returns is exactly the rows it appended. *)
Theorem command_line_pass_agrees (env : timeframe -> string -> attempt)
    (db : signals_table) :
  fst (generateSignalsForTimeframe tf env db) = generateSignals tf (env tf) db /\
  fst (generateSignalsForTimeframe tf env db)
  = db ++ snd (generateSignalsForTimeframe tf env db).
Proof.
  unfold generateSignalsForTimeframe, generateSignals, MARKETS.
  cbn [fold_left].
  destruct (generateAndPushSignal_cases db "BTC" (env tf "BTC"%string))
    as (E1 & R1).
  destruct (generateAndPushSignal db "BTC" tf (env tf "BTC"%string))
    as [db1 r1]. cbn [fst snd] in E1, R1. subst db1.
  set (d1 := generateSignals_body tf db "BTC" (env tf "BTC"%string)) in *.
  assert (S1 : exists l1,
             (match r1 with Some r => (d1, [] ++ [r]) | None => (d1, []) end)
             = (d1, l1) /\ d1 = db ++ l1).
  { destruct r1 as [r|]; eexists; (split; [reflexivity|]);
      rewrite R1; [reflexivity|now rewrite app_nil_r]. }
  destruct S1 as (l1 & -> & D1).
  destruct (generateAndPushSignal_cases d1 "ETH" (env tf "ETH"%string))
    as (E2 & R2).
  destruct (generateAndPushSignal d1 "ETH" tf (env tf "ETH"%string))
    as [db2 r2]. cbn [fst snd] in E2, R2. subst db2.
  set (d2 := generateSignals_body tf d1 "ETH" (env tf "ETH"%string)) in *.
  assert (S2 : exists l2,
             (match r2 with Some r => (d2, l1 ++ [r]) | None => (d2, l1) end)
             = (d2, l2) /\ d2 = db ++ l2).
  { destruct r2 as [r|]; eexists; (split; [reflexivity|]);
      rewrite R2, D1; [now rewrite app_assoc|reflexivity]. }
  destruct S2 as (l2 & -> & D2).
  destruct (generateAndPushSignal_cases d2 "SOL" (env tf "SOL"%string))
    as (E3 & R3).
  destruct (generateAndPushSignal d2 "SOL" tf (env tf "SOL"%string))
    as [db3 r3]. cbn [fst snd] in E3, R3. subst db3.
  set (d3 := generateSignals_body tf d2 "SOL" (env tf "SOL"%string)) in *.
  destruct r3 as [r|]; cbn [fst snd]; (split; [reflexivity|]);
    rewrite R3, D2; [now rewrite app_assoc|reflexivity].
Qed.

End CommandLine.

(* ================================================================= *)
(** ** The price fetchers *)

Section EstimatedOrderBook.

Lemma or_zero_cases (x : num) :
  (exists q, or_zero (Some x) = Fin q /\
             ((exists p, x = Fin p /\ q == p) \/ (x = NaN /\ q == 0))) \/
  (x = PInf /\ or_zero (Some x) = PInf) \/
  (x = NInf /\ or_zero (Some x) = NInf).
Proof.
  destruct x as [p| | |]; cbn [or_zero].
  - left. destruct (Qeq_bool p 0) eqn:E.
    + apply Qeq_bool_iff in E. exists 0%Q. split; [reflexivity|].
      left. exists p. split; [reflexivity|]. now rewrite E.
    + exists p. split; [reflexivity|]. left. exists p. split; reflexivity.
  - right. left. split; reflexivity.
  - right. right. split; reflexivity.
  - left. exists 0%Q. split; [reflexivity|]. right. split; reflexivity.
Qed.

(** The imbalance estimated from a price change. *)
Lemma estimated_imbalance (pd : MultiExchange.price_data) :
  exists i,
    imbalance (MultiExchange.fetchOrderBook pd) = Fin i /\
    3 # 10 <= i <= 7 # 10 /\
    (forall c, MultiExchange.change pd = Fin c ->
               i == spec_clamp ((1 # 2) + c / 20) (3 # 10) (7 # 10)).
Proof.
  unfold MultiExchange.fetchOrderBook. cbv zeta. cbn [imbalance].
  destruct (or_zero_cases (MultiExchange.change pd))
    as [(q & -> & Hq)|[(Hx & ->)|(Hx & ->)]].
  - cbn [ndiv nadd]. change (Qeq_bool 20 0) with false. cbv iota.
    destruct (num_eq_fin_inv _ _
                (clamp_fin 0.3 0.7 (Qred (0.5 + Qred (q / 20)))
                   ltac:(unfold Qle; cbn; lia))) as (i & -> & Hi).
    exists i. split; [reflexivity|]. split.
    + rewrite Hi.
      pose proof (spec_clamp_bounds (Qred (0.5 + Qred (q / 20))) 0.3 0.7
                    ltac:(unfold Qle; cbn; lia)). lra.
    + intros c Hc. rewrite Hi. apply spec_clamp_Proper; try reflexivity.
      rewrite !Qred_correct.
      destruct Hq as [(p & Hp & Hqp)|(Hnan & _)]; [|congruence].
      assert (p = c) by congruence. subst p. rewrite Hqp. field.
  - exists 0.7. split; [reflexivity|]. split; [lra|].
    intros c Hc. congruence.
  - exists 0.3. split; [reflexivity|]. split; [lra|].
    intros c Hc. congruence.
Qed.

(** X17. The order book estimated from the 24h price change has an
    imbalance that is a number between 0.3 and 0.7 whatever the change
    ([NaN] and infinities included), equal to [0.5 + change / 20] clamped:
    it is 0.7 from a change of +4 on and 0.3 from -4 down. *)
Theorem estimated_order_book (pd : MultiExchange.price_data) :
  exists i,
    imbalance (MultiExchange.fetchOrderBook pd) = Fin i /\
    3 # 10 <= i <= 7 # 10 /\
    (forall c, MultiExchange.change pd = Fin c ->
               (4 <= c -> i == 7 # 10) /\
               (c <= -4 -> i == 3 # 10) /\
               (-4 <= c <= 4 -> i == (1 # 2) + c / 20)) /\
    (MultiExchange.change pd = NaN -> i == 1 # 2) /\
    (MultiExchange.change pd = PInf -> i == 7 # 10) /\
    (MultiExchange.change pd = NInf -> i == 3 # 10).
Proof.
  destruct (estimated_imbalance pd) as (i & Hi & Hr & Hc).
  exists i. split; [exact Hi|]. split; [exact Hr|]. split; [|split; [|split]].
  - intros c Hch. specialize (Hc c Hch).
    assert (Hd : (c / 20 == c * (1 # 20))%Q) by field.
    rewrite Hd in Hc. rewrite Hd. unfold spec_clamp in Hc.
    repeat match type of Hc with
           | context [Qlt_le_dec ?a ?b] => destruct (Qlt_le_dec a b)
           end; repeat split; intros; lra.
  - intros Hch. unfold MultiExchange.fetchOrderBook in Hi.
    cbv zeta in Hi. cbn [imbalance] in Hi. rewrite Hch in Hi.
    vm_compute in Hi. injection Hi as <-. reflexivity.
  - intros Hch. unfold MultiExchange.fetchOrderBook in Hi.
    cbv zeta in Hi. cbn [imbalance] in Hi. rewrite Hch in Hi.
    vm_compute in Hi. injection Hi as <-. reflexivity.
  - intros Hch. unfold MultiExchange.fetchOrderBook in Hi.
    cbv zeta in Hi. cbn [imbalance] in Hi. rewrite Hch in Hi.
    vm_compute in Hi. injection Hi as <-. reflexivity.
Qed.

(** X18. With the estimated order book the order-flow score is a number
    between -12 and 12, not negative when the change is not negative and
    not positive when the change is not positive, and the liquidity gate
    always passes. *)
Theorem estimated_order_flow (pd : MultiExchange.price_data)
    (klines : list kline) :
  (exists o,
      calculateOrderFlowScore (MultiExchange.fetchOrderBook pd) = Fin o /\
      -12 <= o <= 12 /\
      (forall c, MultiExchange.change pd = Fin c ->
                 (0 <= c -> 0 <= o) /\ (c <= 0 -> o <= 0))) /\
  rg_liquidity_pass (checkRiskGates klines (MultiExchange.fetchOrderBook pd))
  = true.
Proof.
  destruct (estimated_imbalance pd) as (i & Hi & Hr & Hc). split.
  - destruct (num_eq_fin_inv _ _ (order_flow_fin _ i Hi)) as (o & -> & Ho).
    exists o. split; [reflexivity|].
    assert (Hsc : spec_order_flow i == (i - (1 # 2)) * 60).
    { unfold spec_order_flow, spec_clamp.
      repeat match goal with
             | |- context [Qlt_le_dec ?a ?b] => destruct (Qlt_le_dec a b)
             end; lra. }
    split; [rewrite Ho, Hsc; lra|].
    intros c Hch. specialize (Hc c Hch).
    assert (Hd : (c / 20 == c * (1 # 20))%Q) by field.
    rewrite Hd in Hc. unfold spec_clamp in Hc.
    rewrite Ho, Hsc.
    repeat match type of Hc with
           | context [Qlt_le_dec ?a ?b] => destruct (Qlt_le_dec a b)
           end; split; intros; lra.
  - unfold checkRiskGates. cbv zeta. cbn [rg_liquidity_pass].
    unfold MultiExchange.fetchOrderBook in *. cbv zeta in *.
    cbn [imbalance bidVolume askVolume] in *. rewrite Hi.
    cbn [nmul nsub nadd]. apply ngt_fin. rewrite !Qred_correct. lra.
Qed.

End EstimatedOrderBook.

Lemma estimated_order_book_witness :
  exists i,
    imbalance
      (MultiExchange.fetchOrderBook (MultiExchange.mkPrice 100 98 101 97 5 2))
    = Fin i /\ 3 # 10 <= i <= 7 # 10.
Proof.
  destruct (estimated_order_book (MultiExchange.mkPrice 100 98 101 97 5 2))
    as (i & Hi & Hr & _).
  exists i. split; assumption.
Defined.

Lemma estimated_order_flow_witness :
  exists o,
    calculateOrderFlowScore
      (MultiExchange.fetchOrderBook (MultiExchange.mkPrice 100 98 101 97 5 2))
    = Fin o /\ -12 <= o <= 12.
Proof.
  destruct (proj1 (estimated_order_flow
                     (MultiExchange.mkPrice 100 98 101 97 5 2) []))
    as (o & Ho & Hr & _).
  exists o. split; assumption.
Defined.

Section BinanceOrderBook.

(** A quantity, or a sum of quantities: a non-negative number or
    [+Infinity]. *)
Let nonneg (x : num) : Prop :=
  match x with
  | Fin q => 0 <= q
  | PInf => True
  | _ => False
  end.

Lemma volume_sum_shape (qtys : list num) :
  Forall nonneg qtys ->
  forall sum, nonneg sum ->
              nonneg (fold_left (fun sum qty => sum + qty) qtys sum).
Proof.
  unfold nonneg.
  induction 1 as [|q qtys Hq _ IH]; intros sum Hs; [exact Hs|].
  cbn [fold_left]. apply IH.
  destruct sum as [s| | |], q as [q0| | |]; cbn [nadd]; try tauto.
  rewrite Qred_correct. lra.
Qed.

Lemma volume_sum_zero (qtys : list num) :
  Forall (fun q => q =n= Fin 0) qtys ->
  forall s, s == 0 ->
            fold_left (fun sum qty => sum + qty) qtys (Fin s) =n= Fin 0.
Proof.
  induction 1 as [|q qtys Hq _ IH]; intros s Hs; [exact Hs|].
  cbn [fold_left]. destruct q as [q0| | |]; cbn [num_eq] in Hq; try tauto.
  cbn [nadd]. apply IH. rewrite Qred_correct. lra.
Qed.

Lemma imbalance_shape (b a : num) :
  nonneg b -> nonneg a ->
  b / (b + a) = NaN \/ exists i, b / (b + a) = Fin i /\ 0 <= i <= 1.
Proof.
  unfold nonneg. intros Hb Ha.
  destruct b as [b| | |], a as [a| | |]; try tauto; cbn [nadd ndiv].
  - destruct (Qeq_bool (Qred (b + a)) 0) eqn:E.
    + apply Qeq_bool_iff in E. rewrite Qred_correct in E.
      assert (Hbz : b == 0) by lra.
      left. now rewrite (proj1 (Qeq_alt b 0) Hbz).
    + apply Qeq_bool_neq in E. rewrite Qred_correct in E.
      right. eexists. split; [reflexivity|]. rewrite !Qred_correct. split.
      * apply Qle_shift_div_l; lra.
      * apply Qle_shift_div_r; lra.
  - right. exists 0. split; [reflexivity|lra].
Qed.

(** X19. From bid and ask quantities that are not negative (numbers, or
    [+Infinity]), the imbalance computed by the Binance [fetchOrderBook]
    is [NaN] or a number between 0 and 1, and the order-flow score is
    [NaN] or a number between -30 and 30.  With no volume at all (an
    empty book) the imbalance and the score are [NaN]; with no bid volume
    and some ask volume the imbalance is 0 and the score -30. *)
Theorem binance_order_book (bids asks : list num) :
  Forall (fun q => (q >=? 0) = true) bids ->
  Forall (fun q => (q >=? 0) = true) asks ->
  let ob := Binance.fetchOrderBook bids asks in
  (imbalance ob = NaN \/
   exists i, imbalance ob = Fin i /\ 0 <= i <= 1) /\
  (calculateOrderFlowScore ob = NaN \/
   exists o, calculateOrderFlowScore ob = Fin o /\ -30 <= o <= 30) /\
  (Forall (fun q => q =n= Fin 0) bids ->
   (Forall (fun q => q =n= Fin 0) asks ->
    imbalance ob = NaN /\ calculateOrderFlowScore ob = NaN) /\
   ((askVolume ob >? 0) = true ->
    imbalance ob =n= Fin 0 /\ calculateOrderFlowScore ob =n= Fin (-30))).
Proof.
  intros Hb Ha ob.
  assert (Hshape : forall qtys,
             Forall (fun q => (q >=? 0) = true) qtys -> Forall nonneg qtys).
  { intros qtys H. apply Forall_impl with (2 := H).
    intros [q| | |] Hq; try discriminate Hq; [|exact I].
    now apply nge_fin in Hq. }
  split; [|split].
  - subst ob. unfold Binance.fetchOrderBook. cbv zeta. cbn [imbalance].
    apply imbalance_shape; apply volume_sum_shape; auto;
      unfold nonneg; lra.
  - unfold calculateOrderFlowScore. apply clamp_shape. lra.
  - intros Zb.
    pose proof (volume_sum_zero bids Zb 0 ltac:(reflexivity)) as Eb.
    destruct (num_eq_fin_inv _ _ Eb) as (b & Eb' & Hbz).
    split.
    + intros Za.
      assert (Hi : imbalance ob = NaN).
      { subst ob. unfold Binance.fetchOrderBook. cbv zeta. cbn [imbalance].
        pose proof (volume_sum_zero asks Za 0 ltac:(reflexivity)) as Ea.
        destruct (num_eq_fin_inv _ _ Ea) as (a & -> & Haz).
        rewrite Eb'. cbn [nadd ndiv].
        assert (E : Qeq_bool (Qred (b + a)) 0 = true).
        { apply Qeq_bool_iff. rewrite Qred_correct. lra. }
        rewrite E. now rewrite (proj1 (Qeq_alt b 0) Hbz). }
      split; [exact Hi|].
      unfold calculateOrderFlowScore. now rewrite Hi.
    + intros Hpos.
      assert (Hi : imbalance ob =n= Fin 0).
      { subst ob. unfold Binance.fetchOrderBook in *. cbv zeta in *.
        cbn [imbalance askVolume] in *. rewrite Eb'.
        destruct (fold_left (fun sum qty => sum + qty) asks (Fin 0))
          as [a| | |]; try discriminate Hpos.
        - apply ngt_fin in Hpos. cbn [nadd ndiv].
          rewrite Qeq_bool_false by (rewrite Qred_correct; lra).
          cbn [num_eq]. rewrite Qred_correct, Hbz. field.
          rewrite Qred_correct. lra.
        - reflexivity. }
      split; [exact Hi|].
      destruct (num_eq_fin_inv _ _ Hi) as (i & Hi' & Hiz).
      rewrite (order_flow_fin ob i Hi'). cbn [num_eq].
      unfold spec_order_flow, spec_clamp.
      repeat match goal with
             | |- context [Qlt_le_dec ?x ?y] => destruct (Qlt_le_dec x y)
             end; lra.
Qed.

End BinanceOrderBook.

Lemma binance_order_book_witness :
  let ob := Binance.fetchOrderBook [Fin 3; Fin 5] [Fin 2] in
  imbalance ob = NaN \/ exists i, imbalance ob = Fin i /\ 0 <= i <= 1.
Proof.
  intros ob.
  apply (proj1 (binance_order_book [Fin 3; Fin 5] [Fin 2]
                  ltac:(repeat constructor) ltac:(repeat constructor))).
Defined.

Section FetchKlines.

Lemma slice_neg_suffix {A : Type} (limit : nat) (d : list A) :
  exists pre, d = pre ++ slice_neg limit d.
Proof.
  destruct limit as [|n]; cbn [slice_neg].
  - now exists [].
  - unfold slice_last. eexists. symmetry. apply firstn_skipn.
Qed.

Lemma slice_neg_length {A : Type} (limit : nat) (d : list A) :
  List.length (slice_neg limit d)
  = match limit with
    | O => List.length d
    | S _ => Nat.min limit (List.length d)
    end.
Proof.
  destruct limit as [|n]; cbn [slice_neg]; [reflexivity|].
  unfold slice_last. rewrite length_skipn. lia.
Qed.

Lemma sentiment_nonzero (klines : list kline) :
  (10 <= List.length klines)%nat ->
  ~ calculateSentimentScore klines =n= Fin 0.
Proof.
  intros Hlen. unfold calculateSentimentScore.
  destruct (Nat.ltb_spec (List.length klines) 10) as [H|_]; [lia|].
  cbv zeta. rewrite sentiment_table.
  match goal with
  | |- context [if ?p then (if ?v then _ else _) else _] =>
      destruct p; destruct v
  end; intros H; cbv in H; discriminate H.
Qed.

(** X20. When [fetchKlines] returns candles, they are the last candles of
    the series of one of its two sources, a series of at least 10 candles
    (Kraken's if it has that many); there are at most [limit] of them for a
    positive [limit], and at least 10 for a [limit] of 10 or more.  It
    fails exactly when neither source read has 10 candles.  With the limit
    of 100 that [generateSignal] asks for the sentiment score is therefore
    never the 0 of a short history. *)
Theorem fetchKlines_result (kraken cryptoCompare : option (list kline))
    (limit : nat) :
  (forall ks,
      MultiExchange.fetchKlines kraken cryptoCompare limit = Some ks ->
      (exists d pre,
          (kraken = Some d \/ cryptoCompare = Some d) /\
          (10 <= List.length d)%nat /\ d = pre ++ ks) /\
      ((1 <= limit)%nat -> (List.length ks <= limit)%nat) /\
      ((10 <= limit)%nat ->
       (10 <= List.length ks)%nat /\ ~ calculateSentimentScore ks =n= Fin 0)) /\
  (forall d,
      kraken = Some d -> (10 <= List.length d)%nat ->
      MultiExchange.fetchKlines kraken cryptoCompare limit
      = Some (slice_neg limit d)) /\
  (MultiExchange.fetchKlines kraken cryptoCompare limit = None <->
   (forall d, kraken = Some d -> (List.length d < 10)%nat) /\
   (forall d, cryptoCompare = Some d -> (List.length d < 10)%nat)).
Proof.
  assert (Hres : forall d ks,
             (10 <= List.length d)%nat -> slice_neg limit d = ks ->
             (exists pre, d = pre ++ ks) /\
             ((1 <= limit)%nat -> (List.length ks <= limit)%nat) /\
             ((10 <= limit)%nat ->
              (10 <= List.length ks)%nat /\
              ~ calculateSentimentScore ks =n= Fin 0)).
  { intros d ks Hd <-. split; [apply slice_neg_suffix|].
    pose proof (slice_neg_length limit d) as Hl.
    split; intros H.
    - destruct limit; [lia|]. lia.
    - assert (10 <= List.length (slice_neg limit d))%nat
        by (destruct limit; lia).
      split; [assumption|]. now apply sentiment_nonzero. }
  unfold MultiExchange.fetchKlines. cbv zeta.
  split; [|split].
  - intros ks.
    destruct kraken as [dk|];
      [destruct (Nat.ltb_spec (List.length dk) 10) as [Hk|Hk]|];
      try (destruct cryptoCompare as [dc|]; [|discriminate]);
      match goal with
      | |- context [(10 <=? List.length ?d)%nat] =>
          destruct (Nat.leb_spec 10 (List.length d)) as [Hd|Hd];
          [|discriminate];
          intros [= Hks];
          destruct (Hres d ks Hd Hks) as ((pre & Hpre) & H1 & H2);
          (split; [exists d, pre; auto|split; assumption])
      end.
  - intros d -> Hd.
    destruct (Nat.ltb_spec (List.length d) 10) as [H|_]; [lia|].
    destruct (Nat.leb_spec 10 (List.length d)) as [_|H]; [reflexivity|lia].
  - destruct kraken as [dk|];
      [destruct (Nat.ltb_spec (List.length dk) 10) as [Hk|Hk]|];
      try (destruct cryptoCompare as [dc|]);
      repeat match goal with
        | |- context [(10 <=? List.length ?d)%nat] =>
            destruct (Nat.leb_spec 10 (List.length d))
        end;
      split; try discriminate; try reflexivity;
      try (intros _; split; intros d [= <-]; lia);
      try (intros _; split; intros d; [intros [= <-]; lia|discriminate]);
      try (intros _; split; intros d; [discriminate|intros [= <-]; lia]);
      try (intros _; split; intros d; discriminate);
      intros (H1 & H2);
      try (specialize (H1 _ eq_refl)); try (specialize (H2 _ eq_refl)); lia.
Qed.

End FetchKlines.

Lemma fetchKlines_result_witness :
  MultiExchange.fetchKlines (Some (repeat (mkKline 2 1 2 5) 12)) None 100
  = Some (slice_neg 100 (repeat (mkKline 2 1 2 5) 12)).
Proof.
  apply (proj1 (proj2 (fetchKlines_result
                         (Some (repeat (mkKline 2 1 2 5) 12)) None 100))).
  - reflexivity.
  - simpl. lia.
Defined.

Section CoinGecko.

Variables (p : Q) (vol : option num).

(** X21. The price record built from a CoinGecko entry with a finite,
    non-negative price has [low <= price <= high].  When the entry gives a
    24h change [c] above -100, the record keeps it and derives an [open]
    on the side of the price that the change tells: not above the price
    when [c >= 0], not below it when [c <= 0].  When the entry gives no
    change, [open] is the price and [change] is 0. *)
Theorem coingecko_price_record :
  (forall ch, 0 <= p ->
     exists pd,
       MultiExchange.fetchFromCoinGecko
         (Some (MultiExchange.mkCoin (Fin p) vol ch)) = Some pd /\
       MultiExchange.price pd = Fin p /\
       (MultiExchange.low pd <=? MultiExchange.price pd) = true /\
       (MultiExchange.price pd <=? MultiExchange.high pd) = true) /\
  (forall c, 0 <= p -> -100 < c ->
     exists pd,
       MultiExchange.fetchFromCoinGecko
         (Some (MultiExchange.mkCoin (Fin p) vol (Some (Fin c)))) = Some pd /\
       MultiExchange.change pd =n= Fin c /\
       (0 <= c ->
        (MultiExchange.open pd <=? MultiExchange.price pd) = true) /\
       (c <= 0 ->
        (MultiExchange.price pd <=? MultiExchange.open pd) = true)) /\
  (exists pd,
      MultiExchange.fetchFromCoinGecko
        (Some (MultiExchange.mkCoin (Fin p) vol None)) = Some pd /\
      MultiExchange.open pd =n= Fin p /\
      MultiExchange.change pd = Fin 0).
Proof.
  split; [|split].
  - intros ch Hp. eexists. split; [reflexivity|].
    cbn [MultiExchange.price MultiExchange.low MultiExchange.high
           MultiExchange.usd nmul].
    split; [reflexivity|].
    split; apply nle_fin; rewrite Qred_correct; lra.
  - intros c Hp Hc. eexists. split; [reflexivity|].
    cbn [MultiExchange.price MultiExchange.open MultiExchange.change
           MultiExchange.usd MultiExchange.usd_24h_change].
    assert (Hz : exists c', or_zero (Some (Fin c)) = Fin c' /\ c' == c).
    { cbn [or_zero]. destruct (Qeq_bool c 0) eqn:E.
      - apply Qeq_bool_iff in E. exists 0%Q. split; [reflexivity|].
        now rewrite E.
      - exists c. split; reflexivity. }
    destruct Hz as (c' & -> & Hc').
    split; [exact Hc'|].
    cbn [ndiv nadd]. change (Qeq_bool 100 0) with false. cbv iota.
    set (den := Qred (1 + Qred (c' / 100))).
    assert (Hden : den == 1 + c * (1 # 100)).
    { unfold den. rewrite !Qred_correct, Hc'. field. }
    assert (Hden0 : 0 < den) by (rewrite Hden; lra).
    rewrite (Qeq_bool_false den) by lra.
    split; intros Hs; apply nle_fin; rewrite Qred_correct.
    + apply Qle_shift_div_r; [exact Hden0|]. rewrite Hden. nra.
    + apply Qle_shift_div_l; [exact Hden0|]. rewrite Hden. nra.
  - eexists. split; [reflexivity|].
    cbn [MultiExchange.price MultiExchange.open MultiExchange.change
           MultiExchange.usd MultiExchange.usd_24h_change or_zero].
    split; [|reflexivity].
    cbn [ndiv nadd]. change (Qeq_bool 100 0) with false. cbv iota.
    change (Qeq_bool (Qred (1 + Qred (0 / 100))) 0) with false. cbv iota.
    cbn [num_eq]. rewrite Qred_correct.
    change (Qred (1 + Qred (0 / 100))) with 1%Q. field.
Qed.

End CoinGecko.

Lemma coingecko_price_record_witness :
  exists pd,
    MultiExchange.fetchFromCoinGecko
      (Some (MultiExchange.mkCoin (Fin 105) None (Some (Fin 5)))) = Some pd /\
    (MultiExchange.open pd <=? MultiExchange.price pd) = true.
Proof.
  destruct (proj1 (proj2 (coingecko_price_record 105 None)) 5)
    as (pd & Hpd & _ & Hup & _).
  - unfold Qle; cbn; lia.
  - reflexivity.
  - exists pd. split; [exact Hpd|]. apply Hup. unfold Qle; cbn; lia.
Defined.

Section FetchPrice.

(** X22. [fetchPrice] returns the outcome of the first fetcher, in the
    order tried, that did not fail, and throws exactly when all of them
    failed. *)
Theorem fetchPrice_first_success
    (outcomes : list (option MultiExchange.price_data)) :
  (forall data,
      MultiExchange.fetchPrice outcomes = Some data <->
      exists failed rest,
        outcomes = failed ++ Some data :: rest /\
        Forall (fun o => o = None) failed) /\
  (MultiExchange.fetchPrice outcomes = None <->
   Forall (fun o => o = None) outcomes).
Proof.
  induction outcomes as [|[d|] rest IH]; cbn [MultiExchange.fetchPrice].
  - split.
    + intros data. split; [discriminate|].
      intros (failed & rest & H & _). destruct failed; discriminate H.
    + split; [constructor|reflexivity].
  - split.
    + intros data. split.
      * intros [= <-]. exists [], rest. split; [reflexivity|constructor].
      * intros (failed & rest' & H & Hf). destruct failed as [|f failed].
        -- now injection H as <- _.
        -- injection H as <- _. inversion Hf; discriminate.
    + split; [discriminate|]. intros H. inversion H; discriminate.
  - destruct IH as (IHs & IHn). split.
    + intros data. rewrite IHs. split.
      * intros (failed & rest' & -> & Hf).
        exists (None :: failed), rest'. split; [reflexivity|].
        now constructor.
      * intros (failed & rest' & H & Hf). destruct failed as [|f failed].
        -- discriminate H.
        -- injection H as _ ->. exists failed, rest'.
           split; [reflexivity|]. now inversion Hf.
    + rewrite IHn. split; intros H; [now constructor|now inversion H].
Qed.

End FetchPrice.

(* ================================================================= *)
(** ** Risk gates *)

Section RiskGates.

Variables lo hi : Q.

(** A candle whose range [high - low] is finite and within [[lo, hi]]. *)
Let bounded_range (k : kline) : Prop :=
  exists h l, high k = Fin h /\ low k = Fin l /\ lo <= h - l <= hi.

Lemma range_sum (ks : list kline) :
  Forall bounded_range ks ->
  forall s0,
  exists s,
    fold_left nadd (map (fun k => high k - low k) ks) (Fin s0) = Fin s /\
    s0 + inject_Z (Z.of_nat (List.length ks)) * lo <= s
    <= s0 + inject_Z (Z.of_nat (List.length ks)) * hi.
Proof.
  induction 1 as [|k ks (h & l & Hh & Hl & Hr) _ IH]; intros s0.
  - exists s0. split; [reflexivity|]. cbn [List.length Z.of_nat].
    change (inject_Z 0) with 0%Q. lra.
  - cbn [map fold_left]. rewrite Hh, Hl. cbn [nsub nadd].
    destruct (IH (Qred (s0 + Qred (h - l)))) as (s & Hs & Hb).
    exists s. split; [exact Hs|].
    rewrite !Qred_correct in Hb.
    cbn [List.length]. rewrite Nat2Z.inj_succ, <- Z.add_1_r, inject_Z_plus.
    change (inject_Z 1) with 1%Q.
    set (N := inject_Z (Z.of_nat (List.length ks))) in *. nra.
Qed.

Lemma Forall_slice_last {A : Type} (P : A -> Prop) (n : nat) (l : list A) :
  Forall P l -> Forall P (slice_last n l).
Proof.
  intros H. unfold slice_last.
  rewrite <- (firstn_skipn (List.length l - n) l) in H.
  now apply Forall_app in H.
Qed.

(** X23. In [checkRiskGates] the time, correlation and conflict gates are
    always true.  The liquidity gate fails when the two volumes add up to
    10 or less and passes when they add up to 11 or more.  The volatility
    gate fails on an empty candle list; on candles with a positive last
    close [c] it passes when every candle's range [high - low] is at most
    4% of [c], and fails when every range is at least 6% of [c] (the
    threshold, 5%, lies between the two). *)
Theorem checkRiskGates_gates :
  (forall klines orderBook,
      rg_time_pass (checkRiskGates klines orderBook) = true /\
      rg_correlation_pass (checkRiskGates klines orderBook) = true /\
      rg_conflict_pass (checkRiskGates klines orderBook) = true) /\
  (forall klines (b a : Q) imb,
      (b + a <= 10 ->
       rg_liquidity_pass (checkRiskGates klines (mkOrderBook b a imb))
       = false) /\
      (11 <= b + a ->
       rg_liquidity_pass (checkRiskGates klines (mkOrderBook b a imb))
       = true)) /\
  (forall orderBook,
      rg_volatility_pass (checkRiskGates [] orderBook) = false) /\
  (forall klines orderBook (c : Q),
      klines <> [] ->
      at_index (map close klines) (List.length klines - 1) = Fin c ->
      0 < c ->
      Forall bounded_range klines ->
      (hi * 100 <= 4 * c ->
       rg_volatility_pass (checkRiskGates klines orderBook) = true) /\
      (6 * c <= lo * 100 ->
       rg_volatility_pass (checkRiskGates klines orderBook) = false)).
Proof.
  split; [intros; repeat split|]. split; [|split].
  - intros klines b a imb. unfold checkRiskGates. cbv zeta.
    cbn [rg_liquidity_pass bidVolume askVolume nadd].
    split; intros H; [apply ngt_fin_false|apply ngt_fin];
      rewrite Qred_correct; lra.
  - reflexivity.
  - intros klines orderBook c Hne Hclose Hc Hall.
    unfold checkRiskGates. cbv zeta. cbn [rg_volatility_pass].
    rewrite !length_map, Hclose.
    pose proof (Forall_slice_last _ 14 klines Hall) as Hsl.
    destruct (range_sum (slice_last 14 klines) Hsl 0) as (s & -> & Hs).
    assert (Hn : (1 <= List.length (slice_last 14 klines))%nat).
    { unfold slice_last. rewrite length_skipn.
      destruct klines; [congruence|]. cbn [List.length]. lia. }
    pose proof (of_nat_pos _ Hn) as HN.
    set (N := inject_Z (Z.of_nat (List.length (slice_last 14 klines)))) in *.
    unfold of_nat. fold N. cbn [ndiv].
    rewrite (Qeq_bool_false N) by lra. cbn [ndiv].
    rewrite (Qeq_bool_false c) by lra. cbn [nmul].
    assert (Hv : Qred (Qred (Qred (s / N) / c) * 100) == s * 100 / (N * c)).
    { rewrite !Qred_correct. field. split; lra. }
    assert (HNc : 0 < N * c) by nra.
    split; intros H.
    + apply nlt_fin. rewrite Hv. apply Qlt_shift_div_r; [exact HNc|]. nra.
    + apply nlt_fin_false. rewrite Hv. apply Qle_shift_div_l; [exact HNc|].
      nra.
Qed.

End RiskGates.

Lemma checkRiskGates_gates_witness :
  rg_volatility_pass
    (checkRiskGates (repeat (mkKline 101 99 100 3) 20) (mkOrderBook 8 2 0.8))
  = true.
Proof.
  apply (proj1 (proj2 (proj2 (proj2 (checkRiskGates_gates 2 2)))
                  (repeat (mkKline 101 99 100 3) 20) (mkOrderBook 8 2 0.8)
                  100 ltac:(discriminate) eq_refl eq_refl
                  ltac:(repeat constructor; exists 101, 99;
                        repeat split; unfold Qle; cbn; lia))).
  unfold Qle; cbn; lia.
Defined.

(* ================================================================= *)
(** ** A flat market *)

Section FlatMarket.

Variables (klines : list kline) (c : Q).
Hypothesis enough : (20 <= List.length klines)%nat.
Hypothesis c_pos : 0 < c.
Hypothesis flat : Forall (fun k => close k = Fin c) klines.

Lemma momentum_flat : calculateMomentumScore klines = Fin (-30).
Proof.
  pose proof (closes_of_flat klines (Fin c) flat) as Hcl.
  unfold calculateMomentumScore.
  destruct (Nat.ltb_spec (List.length klines) 20) as [H|_]; [lia|].
  cbv zeta. rewrite Hcl.
  rewrite calculateRSI_flat by lia. rewrite calculateMACD_flat.
  apply Math_max_left. unfold trend_contribution.
  rewrite (trendStrength_flat c _ c_pos) by lia. reflexivity.
Qed.

Lemma sentiment_flat :
  calculateSentimentScore klines = Fin (-8) \/
  calculateSentimentScore klines = Fin (-15).
Proof.
  pose proof (closes_of_flat klines (Fin c) flat) as Hcl.
  unfold calculateSentimentScore.
  destruct (Nat.ltb_spec (List.length klines) 10) as [H|_]; [lia|].
  cbv zeta. rewrite sentiment_table. rewrite !closes_of_window, Hcl.
  rewrite !at_index_repeat by lia.
  rewrite (ngt_num_eq (Fin c) (Fin c)) by reflexivity.
  match goal with
  | |- context [if ?v then _ else _] => destruct v
  end; auto.
Qed.

(** X24. On a perfectly flat market (at least 20 candles, all closing at
    one positive price) the aggressive tier declares DOWN, tradeable,
    whatever the volumes, for every order-book imbalance up to 0.88: the
    momentum score is -30 and the sentiment score -8 or -15, which only a
    heavily bid order book offsets. *)
Theorem flat_market_is_down (sym : string) (tf : timeframe)
    (orderBook : order_book) (i : Q) (now : Z) (random : num) :
  imbalance orderBook = Fin i ->
  i <= 88 # 100 ->
  let s := generateSignal sym tf aggressive klines orderBook now random in
  sig_direction s = DOWN /\ tradeable s = true.
Proof.
  intros Hi Hle s. subst s. unfold generateSignal.
  cbn [sig_direction tradeable].
  destruct (num_eq_fin_inv _ _ (order_flow_fin orderBook i Hi))
    as (o & -> & Ho).
  rewrite momentum_flat.
  assert (Hob : -30 <= o <= 228 # 10).
  { rewrite Ho. unfold spec_order_flow, spec_clamp.
    repeat match goal with
           | |- context [Qlt_le_dec ?x ?y] => destruct (Qlt_le_dec x y)
           end; lra. }
  assert (Hdown : forall se : Q,
             se == -8 \/ se == -15 ->
             d_direction
               (decide (THRESHOLDS aggressive)
                  (confidence_of (Fin o) (Fin (-30)) (Fin se))) = DOWN /\
             d_tradeable
               (decide (THRESHOLDS aggressive)
                  (confidence_of (Fin o) (Fin (-30)) (Fin se))) = true).
  { intros se Hse.
    destruct (confidence_of_fin o (-30) se) as (p & -> & Hp).
    assert (Hp40 : p <= 40).
    { rewrite Hp. unfold spec_confidence, spec_confluence.
      repeat match goal with
             | |- context [Qlt_le_dec ?x ?y] => destruct (Qlt_le_dec x y)
             end;
        unfold spec_clamp;
        repeat match goal with
               | |- context [Qlt_le_dec ?x ?y] => destruct (Qlt_le_dec x y)
               end; destruct Hse; lra. }
    unfold decide. cbn [THRESHOLDS up down].
    destruct (Fin p >=? Fin 60) eqn:E1; [apply nge_fin in E1; lra|].
    destruct (Fin p <=? Fin 40) eqn:E2;
      [split; reflexivity|apply nle_fin_false in E2; lra]. }
  destruct sentiment_flat as [-> | ->]; apply Hdown; [left|right];
    reflexivity.
Qed.

End FlatMarket.

Lemma flat_market_is_down_witness :
  sig_direction
    (generateSignal "BTC" TF_15m aggressive
       (repeat (mkKline 101 99 100 3) 20) (mkOrderBook 8 2 0.8) 1000 0.5)
  = DOWN.
Proof.
  apply (flat_market_is_down (repeat (mkKline 101 99 100 3) 20) 100
           ltac:(simpl; lia) eq_refl ltac:(repeat constructor)
           "BTC" TF_15m (mkOrderBook 8 2 0.8) 0.8 1000%Z (Fin 0.5) eq_refl).
  unfold Qle; cbn; lia.
Defined.
